(** * sndtag: reading metadata from RIFF/WAVE streams

    A shallow embedding of the Go package [sndtag] and the properties of
    its chunk reader.  The package exists in several successive versions
    of its WAV reader; each version is embedded in a module of its own:

    - [GetterA]  the reader whose [newWav] stops after the "WAVE" tag
                 ([sniffFormat]); its later form also defines a
                 [readFormat] ([readFormatID], [readFormatLength],
                 [readAudioFormat], [readNumChannels]) that [newWav] does
                 not call yet;
    - [GetterB]  the reader with [expectChunkID] and the complete
                 [readFormat], called by [newWav];
    - [Getter]   [NewGetter] (getter.go), which runs the [newWav] of
                 either of the two;
    - [Tags]     [New] with [checkRIFFLastByte] over the reader with
                 [readSubchunks], [readChunk] and [expectFourCC].

    The Go standard library is not part of the package; the pieces that
    are called ([io.Reader], [io.LimitReader], [io.ReadFull] under
    [binary.Read], [io.CopyN] into [ioutil.Discard], [strconv.FormatInt])
    are modelled in [Go] after their implementation. *)

From Stdlib Require Import ZArith Lia.
From Stdlib Require Import Strings.Byte Strings.String Strings.Ascii.
From Stdlib Require Import DecimalString.
From stdpp Require Import base strings list gmap.

Open Scope Z_scope.

(** ** The Go runtime pieces the package calls *)

Module Go.

(** [error] values.  [io.EOF] and [io.ErrUnexpectedEOF] are the two
    sentinel errors of package io; every other constructor is one
    [fmt.Errorf] call site of the package, carrying its arguments.
    [ErrOther] stands for errors made elsewhere (the ID3 reader);
    [ErrNoProgress] is returned by the fuelled loops below when the fuel
    runs out, which a reader that delivers at least one byte or an error
    per call never causes. *)
Inductive error : Type :=
| EOF
| ErrUnexpectedEOF
| ErrNoProgress
| ErrShortRead (expected got : Z)
| ErrUnrecognizedHeader (x : string)
| ErrExpectedRIFF (hdr : string)
| ErrExpectedFormat (expected got : string)
| ErrExpectedChunkID (expected got : string)
| ErrFmtChunkLength (expected got : Z)
| ErrPcmAudioFormat (expected got : Z)
| ErrUnrecognizedChunkID (id : string)
| ErrKeyDoesNotExist (key : string)
| ErrOther (msg : string).

(** [err == io.EOF] *)
Definition is_EOF (e : error) : bool :=
  match e with EOF => true | _ => false end.

(** [strconv.FormatInt(v, 10)] and [strconv.Itoa]: the decimal numeral of
    a signed integer, with a leading minus sign for negative values. *)
Definition FormatInt (v : Z) : string := NilZero.string_of_int (Z.to_int v).

(** The message of an error, as [fmt.Errorf] formats it. *)
Definition Error (e : error) : string :=
  match e with
  | EOF => "EOF"
  | ErrUnexpectedEOF => "unexpected EOF"
  | ErrNoProgress => "multiple Read calls return no data or error"
  | ErrShortRead expected got =>
      "expected to read " +:+ FormatInt expected +:+ " bytes, actually read " +:+ FormatInt got
  | ErrUnrecognizedHeader x => "unrecognized header: " +:+ x
  | ErrExpectedRIFF hdr => "expected RIFF, got " +:+ hdr
  | ErrExpectedFormat expected got => "expected format " +:+ expected +:+ ", got " +:+ got
  | ErrExpectedChunkID expected got => "expected chunk ID " +:+ expected +:+ ", got " +:+ got
  | ErrFmtChunkLength expected got =>
      "expected fmt chunk length " +:+ FormatInt expected +:+ ", got " +:+ FormatInt got
  | ErrPcmAudioFormat expected got =>
      "expected pcm audio format " +:+ FormatInt expected +:+ ", got " +:+ FormatInt got
  | ErrUnrecognizedChunkID id => "unrecognized chunk ID: " +:+ id
  | ErrKeyDoesNotExist key => "key does not exist: " +:+ key
  | ErrOther msg => msg
  end.

(** The outcome of a function whose Go signature ends in [error]:
    [Ok a] is a nil error together with the values it yields. *)
Inductive result (A : Type) : Type :=
| Ok (a : A)
| Err (e : error).
Arguments Ok {A} a.
Arguments Err {A} e.

(** Stateful, fallible computations: the state is what the Go code
    mutates (the position of a reader, the map of a [wav]); it is kept
    when the computation fails, since the bytes stay consumed. *)
Definition M (S A : Type) : Type := S → S * result A.

Definition ret {S A} (a : A) : M S A := λ s, (s, Ok a).
Definition fail {S A} (e : error) : M S A := λ s, (s, Err e).
Definition bind {S A B} (m : M S A) (k : A → M S B) : M S B :=
  λ s, match m s with
       | (s', Ok a) => k a s'
       | (s', Err e) => (s', Err e)
       end.

Notation "'let*' x := m 'in' k" := (bind m (λ x, k))
  (at level 10, x name, m at level 100, k at level 200).
Notation "m >> k" := (bind m (λ _, k))
  (at level 65, right associativity).

(** *** io.Reader *)

(** [Read r n] is [r.Read(p)] for a buffer [p] of length [n]: the new
    state of the reader, the bytes stored at the front of [p] and the
    error. *)
Class Reader (R : Type) := Read : R → nat → R * (list byte * option error).

(** An in-memory stream ([bytes.Reader], [strings.Reader], a regular
    file): a call delivers as many of the remaining bytes as fit in the
    buffer, and [io.EOF] with no byte once nothing remains. *)
#[export] Instance stream_Reader : Reader (list byte) := λ s n,
  match s with
  | [] => (s, ([], Some EOF))
  | _ => (drop n s, (take n s, None))
  end.

(** [io.LimitedReader]: [LR] is the underlying reader, [LN] the number of
    bytes still allowed.  The limited reader shares the underlying
    reader with its creator: reading through it advances [LR]. *)
Record LimitedReader (R : Type) : Type := LimitReader { LR : R; LN : Z }.
Arguments LimitReader {R} LR LN.
Arguments LR {R} l.
Arguments LN {R} l.

#[export] Instance Limited_Reader {R} `{Reader R} : Reader (LimitedReader R) := λ l n,
  if LN l <=? 0 then (l, ([], Some EOF))
  else
    let n' := if Z.of_nat n >? LN l then Z.to_nat (LN l) else n in
    let '(r', (bs, err)) := Read (LR l) n' in
    (LimitReader r' (LN l - Z.of_nat (length bs)), (bs, err)).

Section Generic.
Context {R : Type} `{Reader R}.

(** The loop of [io.ReadAtLeast(r, buf, len(buf))]: [acc] holds the [n]
    bytes read so far. *)
Fixpoint ReadFull_loop (fuel : nat) (r : R) (len : nat) (acc : list byte)
  : R * (list byte * option error) :=
  if (len <=? length acc)%nat then (r, (acc, None))
  else
    match fuel with
    | O => (r, (acc, Some ErrNoProgress))
    | S fuel' =>
        let '(r', (bs, err)) := Read r (len - length acc) in
        let acc' := acc ++ bs in
        match err with
        | None => ReadFull_loop fuel' r' len acc'
        | Some e =>
            (r', (acc',
                  if (len <=? length acc')%nat then None
                  else if (0 <? length acc')%nat && is_EOF e then Some ErrUnexpectedEOF
                  else Some e))
        end
    end.

(** [io.ReadFull(r, buf)] with [len(buf) = len]. *)
Definition ReadFull (r : R) (len : nat) : R * (list byte * option error) :=
  ReadFull_loop (S len) r len [].

(** [ioutil.Discard.ReadFrom(r)]: read blocks of [blackHoleSize] bytes
    until an error; [io.EOF] ends the copy without error. *)
Definition blackHoleSize : nat := Z.to_nat 8192.

Fixpoint Discard_ReadFrom (fuel : nat) (r : R) (n : Z) : R * (Z * option error) :=
  match fuel with
  | O => (r, (n, Some ErrNoProgress))
  | S fuel' =>
      let '(r', (bs, err)) := Read r blackHoleSize in
      let n' := n + Z.of_nat (length bs) in
      match err with
      | None => Discard_ReadFrom fuel' r' n'
      | Some e => (r', (n', if is_EOF e then None else Some e))
      end
  end.

End Generic.

(** [io.CopyN(ioutil.Discard, src, n)]: copy from [LimitReader(src, n)]
    into the discarding writer, then compare the count with [n]. *)
Definition CopyN_Discard {R} `{Reader R} (src : R) (n : Z) : R * (Z * option error) :=
  let '(l, (written, err)) :=
    Discard_ReadFrom (S (Z.to_nat n)) (LimitReader src n) 0 in
  if written =? n then (LR l, (n, None))
  else if (written <? n) && bool_decide (err = None) then (LR l, (written, Some EOF))
  else (LR l, (written, err)).

(** *** encoding/binary, little endian *)

Definition byte_val (b : byte) : Z := Z.of_N (Byte.to_N b).

(** [binary.LittleEndian.Uint16] and [Uint32] *)
Definition Uint16 (b0 b1 : byte) : Z :=
  Z.lor (byte_val b0) (Z.shiftl (byte_val b1) 8).

Definition Uint32 (b0 b1 b2 b3 : byte) : Z :=
  Z.lor (Z.lor (Z.lor (byte_val b0) (Z.shiftl (byte_val b1) 8))
               (Z.shiftl (byte_val b2) 16))
        (Z.shiftl (byte_val b3) 24).

(** The conversions [int16(x)] and [int32(x)] of an unsigned value of the
    same width: two's complement. *)
Definition to_int16 (x : Z) : Z := if x <? 2 ^ 15 then x else x - 2 ^ 16.
Definition to_int32 (x : Z) : Z := if x <? 2 ^ 31 then x else x - 2 ^ 32.

(** [binary.Read(r, binary.LittleEndian, &v)] for [v] of type [int16] and
    [int32]: [io.ReadFull] of the size of [v], whose error is returned
    as it is, then the decoding. *)
Definition binary_Read_int16 {R} `{Reader R} : M R Z := λ r,
  match ReadFull r 2 with
  | (r', (_, Some e)) => (r', Err e)
  | (r', ([b0; b1], None)) => (r', Ok (to_int16 (Uint16 b0 b1)))
  | (r', (_, None)) => (r', Err ErrNoProgress)
  end.

Definition binary_Read_int32 {R} `{Reader R} : M R Z := λ r,
  match ReadFull r 4 with
  | (r', (_, Some e)) => (r', Err e)
  | (r', ([b0; b1; b2; b3], None)) => (r', Ok (to_int32 (Uint32 b0 b1 b2 b3)))
  | (r', (_, None)) => (r', Err ErrNoProgress)
  end.

(** *** The map of a [wav] *)

(** A [map[string]string]; where a function returns one, [None] stands
    for the nil map. *)
Abbreviation strmap := (gmap string string).

(** The methods of [wav] run on a reader and on the map of their
    receiver, which is shared by all copies of the receiver.  A reader
    function called by a method leaves the map untouched. *)
Definition onReader {R A} (m : M R A) : M (R * strmap) A := λ '(r, md),
  let '(r', res) := m r in ((r', md), res).

(** [w.store[prop] = v], and [w.metadata[prop] = v] *)
Definition setProp {R} (prop v : string) : M (R * strmap) unit := λ '(r, md),
  ((r, <[prop := v]> md), Ok tt).

(** [string(b)] for a byte slice *)
Definition string_of (bs : list byte) : string := string_of_list_byte bs.

(** The bytes of a string literal *)
Definition bytes (s : string) : list byte := list_byte_of_string s.

End Go.


(** ** The reader with [sniffFormat] *)

Module GetterA.
Import Go.

(** wav parses RIFF tags from wav files. *)
Record wav : Type := { length : Z; store : gmap string string }.

(** Get returns the tag specified by key.  If the tag doesn't exist an
    error is returned. *)
Definition Get (w : wav) (key : string) : string * option error :=
  match store w !! key with
  | None => (EmptyString, Some (ErrKeyDoesNotExist key))
  | Some v => (v, None)
  end.

Section Wav.
Context {R : Type} `{Reader R}.

(** sniffFormat reads the format bytes from an io.Reader and returns an
    error if they aren't "WAVE". *)
Definition sniffFormat : M (R * strmap) unit :=
  onReader (λ r,
    let '(r', (format, err)) := Read r 4 in
    match err with
    | Some e => (r', Err e)
    | None =>
        let bytesRead := Z.of_nat (List.length format) in
        if negb (4 =? bytesRead) then (r', Err (ErrShortRead 4 bytesRead))
        else if negb (String.eqb "WAVE" (string_of format))
        then (r', Err (ErrExpectedFormat "WAVE" (string_of format)))
        else (r', Ok tt)
    end).

(** readFormatID reads the fmt chunk identifier. *)
Definition readFormatID : M (R * strmap) unit :=
  onReader (λ r,
    let '(r', (id, err)) := Read r 4 in
    match err with
    | Some e => (r', Err e)
    | None =>
        let bytesRead := Z.of_nat (List.length id) in
        if negb (4 =? bytesRead) then (r', Err (ErrShortRead 4 bytesRead))
        else if negb (String.eqb "fmt " (string_of id))
        then (r', Err (ErrExpectedFormat "fmt " (string_of id)))
        else (r', Ok tt)
    end).

(** readFormatLength reads the length of the fmt chunk. *)
Definition readFormatLength : M (R * strmap) unit :=
  let* length := onReader binary_Read_int32 in
  if negb (16 =? length) then fail (ErrFmtChunkLength 16 length)
  else ret tt.

(** readAudioFormat reads the audio format from the fmt chunk and stores
    it as the "AudioFormat" property. *)
Definition readAudioFormat : M (R * strmap) unit :=
  let* audioFormat := onReader binary_Read_int16 in
  if negb (1 =? audioFormat) then fail (ErrPcmAudioFormat 1 audioFormat)
  else setProp "AudioFormat" (FormatInt audioFormat).

(** readNumChannels reads the number of channels from the fmt chunk and
    stores it as the "NumChannels" property. *)
Definition readNumChannels : M (R * strmap) unit :=
  let* numChannels := onReader binary_Read_int16 in
  setProp "NumChannels" (FormatInt numChannels).

(** readFormat reads the format chunk.  It also stores the formatting
    information as properties. *)
Definition readFormat : M (R * strmap) unit :=
  readFormatID >>
  readFormatLength >>
  readAudioFormat >>
  readNumChannels >>
  ret tt.

(** newWav creates a new Getter that can return properties for WAV
    files.  Note that the "RIFF" chunk identifier has already been read
    by the time this function is called. *)
Definition newWav (r : R) : R * (option wav * option error) :=
  match binary_Read_int32 r with
  | (r1, Err e) => (r1, (None, Some e))
  | (r1, Ok length) =>
      match sniffFormat (r1, ∅) with
      | ((r2, _), Err e) => (r2, (None, Some e))
      | ((r2, md), Ok _) => (r2, (Some {| length := length; store := md |}, None))
      end
  end.

End Wav.

End GetterA.

(** ** The reader with [expectChunkID] and the complete [readFormat] *)

Module GetterB.
Import Go.

(** wav parses RIFF tags from wav files. *)
Record wav : Type := { length : Z; store : gmap string string }.

(** Get returns the tag specified by key.  If the tag doesn't exist an
    error is returned. *)
Definition Get (w : wav) (key : string) : string * option error :=
  match store w !! key with
  | None => (EmptyString, Some (ErrKeyDoesNotExist key))
  | Some v => (v, None)
  end.

Section Wav.
Context {R : Type} `{Reader R}.

(** readChunkID reads a chunk ID. *)
Definition readChunkID : M (R * strmap) (list byte) :=
  onReader (λ r,
    let '(r', (chunkID, err)) := Read r 4 in
    match err with
    | Some e => (r', Err e)
    | None =>
        let bytesRead := Z.of_nat (List.length chunkID) in
        if negb (4 =? bytesRead) then (r', Err (ErrShortRead 4 bytesRead))
        else (r', Ok chunkID)
    end).

(** expectChunkID reads a chunk ID from an io.Reader and checks it
    against an expected value. *)
Definition expectChunkID (expected : string) : M (R * strmap) unit :=
  let* chunkID := readChunkID in
  if negb (String.eqb expected (string_of chunkID))
  then fail (ErrExpectedChunkID expected (string_of chunkID))
  else ret tt.

(** readFormatLength reads the length of the fmt chunk. *)
Definition readFormatLength : M (R * strmap) unit :=
  let* length := onReader binary_Read_int32 in
  if negb (16 =? length) then fail (ErrFmtChunkLength 16 length)
  else ret tt.

(** readAudioFormat reads the audio format from the fmt chunk and stores
    it as the "AudioFormat" property. *)
Definition readAudioFormat : M (R * strmap) unit :=
  let* audioFormat := onReader binary_Read_int16 in
  if negb (1 =? audioFormat) then fail (ErrPcmAudioFormat 1 audioFormat)
  else setProp "AudioFormat" (FormatInt audioFormat).

(** readInt16 reads an int16 from an io.Reader and stores it as a
    property. *)
Definition readInt16 (prop : string) : M (R * strmap) unit :=
  let* val := onReader binary_Read_int16 in
  setProp prop (FormatInt val).

(** readInt32 reads an int32 from an io.Reader and stores it as a
    property. *)
Definition readInt32 (prop : string) : M (R * strmap) unit :=
  let* val := onReader binary_Read_int32 in
  setProp prop (FormatInt val).

(** readFormat reads the format chunk.  It also stores the formatting
    information as properties. *)
Definition readFormat : M (R * strmap) unit :=
  expectChunkID "fmt " >>
  readFormatLength >>
  readAudioFormat >>
  readInt16 "NumChannels" >>
  readInt32 "SampleRate" >>
  readInt32 "ByteRate" >>
  readInt16 "BlockAlign" >>
  readInt16 "BitRate" >>
  ret tt.

(** newWav creates a new Getter that can return properties for WAV
    files.  Note that the "RIFF" chunk identifier has already been read
    by the time this function is called. *)
Definition newWav (r : R) : R * (option wav * option error) :=
  match binary_Read_int32 r with
  | (r1, Err e) => (r1, (None, Some e))
  | (r1, Ok length) =>
      match (expectChunkID "WAVE" >> readFormat) (r1, ∅) with
      | ((r2, _), Err e) => (r2, (None, Some e))
      | ((r2, md), Ok _) => (r2, (Some {| length := length; store := md |}, None))
      end
  end.

End Wav.

End GetterB.

(** ** [NewGetter] *)

Module Getter.
Import Go.

Section NewGetter.
Context {R : Type} `{Reader R}.

(** A [Getter] is an interface value; [wav] stands for the type behind
    it, which is the [wav] of the reader in use. *)
Context {wav : Type}.

(** [newWav] is the one of the reader in use; the ID3 reader is not
    part of the sources. *)
Variable newWav : R → R * (option wav * option error).
Variable newID3 : R → R * (option wav * option error).

(** NewGetter creates a new Getter.  If the type is not one of the
    supported types then an error is returned. *)
Definition NewGetter (r : R) : R * (option wav * option error) :=
  let '(r1, (header, err)) := Read r 3 in
  match err with
  | Some e => (r1, (None, Some e))
  | None =>
      let bytesRead := Z.of_nat (length header) in
      if negb (3 =? bytesRead) then (r1, (None, Some (ErrShortRead 3 bytesRead)))
      else
        let x := string_of header in
        if String.eqb x "TAG" then newID3 r1
        else if String.eqb x "RIF" then
          let '(r2, (headerLastByte, err)) := Read r1 1 in
          match err with
          | Some e => (r2, (None, Some e))
          | None =>
              let bytesRead := Z.of_nat (length headerLastByte) in
              if negb (1 =? bytesRead)
              then (r2, (None, Some (ErrShortRead 1 bytesRead)))
              else if negb (Byte.eqb (nth 0 headerLastByte "000"%byte) "F"%byte)
              then (r2, (None, Some (ErrExpectedRIFF (string_of (header ++ headerLastByte)))))
              else newWav r2
          end
        else (r1, (None, Some (ErrUnrecognizedHeader x)))
  end.

End NewGetter.

End Getter.

(** ** [New] and the reader with [readSubchunks] *)

Module Tags.
Import Go.

(** wav parses RIFF tags from wav files.  The methods of [wav] below
    run on the reader and on the map [metadata] of their receiver;
    [length] is written once by [newWav]. *)
Record wav : Type := { length : Z; metadata : gmap string string }.

Section Reader.
Context {R : Type} `{Reader R}.

(** readFourCC reads a chunk ID. *)
Definition readFourCC : M R (list byte) := λ r,
  let '(r', (chunkID, err)) := Read r 4 in
  match err with
  | Some e => (r', Err e)
  | None =>
      let bytesRead := Z.of_nat (List.length chunkID) in
      if negb (4 =? bytesRead) then (r', Err (ErrShortRead 4 bytesRead))
      else (r', Ok chunkID)
  end.

(** expectFourCC reads a chunk ID from an io.Reader and checks it against
    an expected value. *)
Definition expectFourCC (expected : string) : M R unit :=
  let* chunkID := readFourCC in
  if negb (String.eqb expected (string_of chunkID))
  then fail (ErrExpectedChunkID expected (string_of chunkID))
  else ret tt.

(** readChunk reads a chunk from an io.Reader and returns the chunk
    identifier, the chunk length and the chunk data.  The data is a
    limited reader over the reader itself, at the position after the
    header. *)
Definition readChunk : M R (string * Z * LimitedReader R) :=
  let* idb := readFourCC in
  let* length := binary_Read_int32 in
  λ r, (r, Ok (string_of idb, length, LimitReader r length)).

End Reader.

Section Wav.
Context {R : Type} `{Reader R}.

(** readAudioFormat reads the audio format from the fmt chunk and stores
    it as the "AudioFormat" property. *)
Definition readAudioFormat : M (R * strmap) unit :=
  let* audioFormat := onReader binary_Read_int16 in
  if negb (1 =? audioFormat) then fail (ErrPcmAudioFormat 1 audioFormat)
  else setProp "AudioFormat" (FormatInt audioFormat).

(** readInt16 reads an int16 from an io.Reader and stores it as a
    property. *)
Definition readInt16 (prop : string) : M (R * strmap) unit :=
  let* val := onReader binary_Read_int16 in
  setProp prop (FormatInt val).

(** readInt32 reads an int32 from an io.Reader and stores it as a
    property. *)
Definition readInt32 (prop : string) : M (R * strmap) unit :=
  let* val := onReader binary_Read_int32 in
  setProp prop (FormatInt val).

(** readFormat reads the fmt chunk data.  It also stores the formatting
    information as properties. *)
Definition readFormat : M (R * strmap) unit :=
  readAudioFormat >>
  readInt16 "NumChannels" >>
  readInt32 "SampleRate" >>
  readInt32 "ByteRate" >>
  readInt16 "BlockAlign" >>
  readInt16 "BitRate" >>
  ret tt.

(** readList reads a LIST chunk, which can contain subchunks. *)
Definition readList : M (R * strmap) unit :=
  onReader (expectFourCC "INFO").

(** readInfo reads an INFO chunk. *)
Definition readInfo : M (R * strmap) unit := ret tt.

End Wav.

Section Walker.
Context {R : Type} `{Reader R}.

(** A method run on the chunk data: the limited reader [data] shares
    the underlying reader, whose state is the one left behind. *)
Definition onData {A} (data : LimitedReader R)
    (m : M (LimitedReader R * strmap) A) : M (R * strmap) A := λ '(_, md),
  let '((data', md'), res) := m (data, md) in ((LR data', md'), res).

(** readSubchunks reads the subchunks of the RIFF chunk. *)
Definition readSubchunks : M (R * strmap) unit :=
  let* c := onReader readChunk in
  let '(id, length, data) := c in
  if String.eqb id "fmt " then
    onData data readFormat
  else if String.eqb id "data" then
    onReader (λ r, match CopyN_Discard r length with
                   | (r', (_, Some e)) => (r', Err e)
                   | (r', (_, None)) => (r', Ok tt)
                   end)
  else if String.eqb id "LIST" then
    onData data readList
  else if String.eqb id "INFO" then
    onData data readInfo
  else fail (ErrUnrecognizedChunkID id).

(** newWav creates a new map that contains properties for WAV files.
    Note that the "RIFF" chunk identifier has already been read by the
    time this function is called. *)
Definition newWav (r : R) : R * (option strmap * option error) :=
  match binary_Read_int32 r with
  | (r1, Err e) => (r1, (None, Some e))
  | (r1, Ok length) =>
      match expectFourCC "WAVE" r1 with
      | (r2, Err e) => (r2, (None, Some e))
      | (r2, Ok _) =>
          match readSubchunks (r2, ∅) with
          | ((r3, _), Err e) => (r3, (None, Some e))
          | ((r3, md), Ok _) =>
              let w := {| length := length; metadata := md |} in
              (r3, (Some (metadata w), None))
          end
      end
  end.

(** checkRIFFLastByte checks that the 4th byte of a RIFF file is 'F'. *)
Definition checkRIFFLastByte (header : list byte) : M R unit := λ r,
  let '(r', (headerLastByte, err)) := Read r 1 in
  match err with
  | Some e => (r', Err e)
  | None =>
      let bytesRead := Z.of_nat (List.length headerLastByte) in
      if negb (1 =? bytesRead) then (r', Err (ErrShortRead 1 bytesRead))
      else if negb (Byte.eqb (nth 0 headerLastByte "000"%byte) "F"%byte)
      then (r', Err (ErrExpectedRIFF (string_of (header ++ headerLastByte))))
      else (r', Ok tt)
  end.

(** The ID3 reader is called by [New] and is not part of the sources. *)
Variable newID3 : R → R * (option strmap * option error).

(** New creates a new map with metadata read from an io.Reader.  If the
    type is not one of the supported types then an error is returned. *)
Definition New (r : R) : R * (option strmap * option error) :=
  let '(r1, (header, err)) := Read r 3 in
  match err with
  | Some e => (r1, (None, Some e))
  | None =>
      let bytesRead := Z.of_nat (List.length header) in
      if negb (3 =? bytesRead) then (r1, (None, Some (ErrShortRead 3 bytesRead)))
      else
        let x := string_of header in
        if String.eqb x "TAG" then newID3 r1
        else if String.eqb x "RIF" then
          match checkRIFFLastByte header r1 with
          | (r2, Err e) => (r2, (None, Some e))
          | (r2, Ok _) =>
              let '(r3, (getter, err)) := newWav r2 in
              match err with
              | Some e =>
                  if negb (is_EOF e) then (r3, (None, Some e))
                  else (r3, (getter, None))
              | None => (r3, (getter, None))
              end
          end
        else (r1, (None, Some (ErrUnrecognizedHeader x)))
  end.

End Walker.

End Tags.


(** * Properties *)

Import Go.

(** ** Streams used in the statements *)

(** The little-endian encodings of a 16-bit and of a 32-bit value. *)
Definition byte_of (v : Z) : byte :=
  match Byte.of_N (Z.to_N (v mod 256)) with
  | Some b => b
  | None => "000"%byte
  end.

Definition le16 (v : Z) : list byte := [byte_of v; byte_of (v / 2 ^ 8)].

Definition le32 (v : Z) : list byte :=
  [byte_of v; byte_of (v / 2 ^ 8); byte_of (v / 2 ^ 16); byte_of (v / 2 ^ 24)].

(** The payload of a format chunk: encoding tag, channel count, sample
    rate, byte rate, block alignment, bit depth. *)
Definition fmt_payload (tag channels rate byterate align depth : Z) : list byte :=
  le16 tag ++ le16 channels ++ le32 rate ++ le32 byterate ++ le16 align ++ le16 depth.

(** A chunk: identifier, declared length, payload. *)
Definition chunk (id : string) (len : Z) (payload : list byte) : list byte :=
  bytes id ++ le32 len ++ payload.

(** What follows the magic: the outer length [l] (four bytes) and the
    "WAVE" tag, then the chunks. *)
Definition wave (l chunks : list byte) : list byte := l ++ bytes "WAVE" ++ chunks.

(** The whole container. *)
Definition riff (l chunks : list byte) : list byte := bytes "RIFF" ++ wave l chunks.

(** The format chunk of 16-bit stereo PCM at 44100 Hz. *)
Definition cd_fmt_chunk : list byte :=
  chunk "fmt " 16 (fmt_payload 1 2 44100 176400 4 16).

(** The six fields decoded from it. *)
Definition cd_fields : strmap :=
  <["BitRate" := "16"]> (<["BlockAlign" := "4"]> (<["ByteRate" := "176400"]>
  (<["SampleRate" := "44100"]> (<["NumChannels" := "2"]> (<["AudioFormat" := "1"]> ∅))))).

(** The map after a format chunk has been decoded into [md]: each value
    is the decimal numeral of the integer read. *)
Definition with_fmt_fields (tag channels rate byterate align depth : Z) (md : strmap) : strmap :=
  <["BitRate" := FormatInt depth]> (<["BlockAlign" := FormatInt align]>
  (<["ByteRate" := FormatInt byterate]> (<["SampleRate" := FormatInt rate]>
  (<["NumChannels" := FormatInt channels]> (<["AudioFormat" := FormatInt tag]> md))))).

(** The ID3 reader that [New] and [NewGetter] call on a "TAG" header is
    not among the sources; it is a parameter of both.  This instance,
    which supports nothing, serves to run them on concrete streams that
    do not start with "TAG". *)
Definition noID3 {R A} (r : R) : R * (option A * option error) :=
  (r, (None, Some (ErrOther "id3: not supported"))).

(** ** Predicates used in the statements *)

(** The streams [New] does not hand to the ID3 reader. *)
Definition not_ID3 (s : list byte) : Prop := string_of (take 3 s) ≠ "TAG".

(** The prefixes that the sniffer does not recognise: three bytes that
    are neither "TAG" nor "RIF", or "RIF" and a fourth byte that is not
    'F'. *)
Definition unrecognized_magic (observed : list byte) : Prop :=
  (∃ b0 b1 b2, observed = [b0; b1; b2]
               ∧ string_of observed ≠ "TAG" ∧ string_of observed ≠ "RIF")
  ∨ (∃ b3, observed = ["R"; "I"; "F"; b3]%byte ∧ b3 ≠ "F"%byte).

(** A rejection by the sniffer: no value is returned, the error is one
    of the two header errors and carries the bytes [observed], which are
    all that has been consumed of the stream [s], and at most four. *)
Definition sniff_rejects {A} (res : list byte * (option A * option error))
    (s : list byte) (observed : list byte) : Prop :=
  ∃ rest e,
    res = (rest, (None, Some e))
    ∧ (e = ErrUnrecognizedHeader (string_of observed)
       ∨ e = ErrExpectedRIFF (string_of observed))
    ∧ (∃ msg, Error e = msg +:+ string_of observed)
    ∧ s = observed ++ rest
    ∧ (length observed ≤ 4)%nat.

(** The invariant of the map: "AudioFormat", when present, is "1". *)
Definition AudioFormat_is_1 (md : strmap) : Prop :=
  ∀ v, md !! "AudioFormat" = Some v → v = "1".

(** A method of [wav] keeps a property of the map, whether it fails or
    not. *)
Definition preserves {R A} (P : strmap → Prop) (m : M (R * strmap) A) : Prop :=
  ∀ r md, P md → P (m (r, md)).1.2.

(** The maps produced by a parse: the map returned by [newWav] of each
    reader, the map [readFormat] of the first reader leaves behind when
    run on the empty map (its [newWav] does not call it), and the maps
    returned by [New] and by [NewGetter] on a stream that is not handed
    to the ID3 reader. *)
Inductive parsed (md : strmap) : Prop :=
| parsed_Tags_newWav {R} `{Reader R} (r r' : R) e :
    Tags.newWav r = (r', (Some md, e)) → parsed md
| parsed_GetterB_newWav {R} `{Reader R} (r r' : R) w e :
    GetterB.newWav r = (r', (Some w, e)) → GetterB.store w = md → parsed md
| parsed_GetterA_newWav {R} `{Reader R} (r r' : R) w e :
    GetterA.newWav r = (r', (Some w, e)) → GetterA.store w = md → parsed md
| parsed_GetterA_readFormat {R} `{Reader R} (r r' : R) res :
    GetterA.readFormat (r, ∅) = ((r', md), res) → parsed md
| parsed_New newID3 (s r : list byte) e :
    not_ID3 s → Tags.New newID3 s = (r, (Some md, e)) → parsed md
| parsed_NewGetterB newID3 (s r : list byte) w e :
    not_ID3 s → Getter.NewGetter GetterB.newWav newID3 s = (r, (Some w, e)) →
    GetterB.store w = md → parsed md
| parsed_NewGetterA newID3 (s r : list byte) w e :
    not_ID3 s → Getter.NewGetter GetterA.newWav newID3 s = (r, (Some w, e)) →
    GetterA.store w = md → parsed md.

(** The cuts of the payload of a format chunk that fall at the end of
    a field: before the tag, and after the tag, the channel count, the
    sample rate, the byte rate and the block alignment. *)
Definition field_boundary (k : nat) : bool :=
  existsb (Nat.eqb k) [0; 2; 4; 8; 12; 14]%nat.

(** ** Further predicates *)

(** The keys that [readFormat] of the readers [GetterB] and [Tags]
    assigns. *)
Definition fmt_keys : gset string :=
  {[ "AudioFormat"; "NumChannels"; "SampleRate"; "ByteRate"; "BlockAlign"; "BitRate" ]}.

(** The values of the Go types [int16] and [int32]. *)
Definition is_int16 (v : Z) : Prop := - 2 ^ 15 ≤ v < 2 ^ 15.
Definition is_int32 (v : Z) : Prop := - 2 ^ 31 ≤ v < 2 ^ 31.

(** The map that a decoded format chunk leaves in the empty map, for
    some values of its five free fields. *)
Definition fmt_map (md : strmap) : Prop :=
  ∃ channels rate byterate align depth,
    is_int16 channels ∧ is_int32 rate ∧ is_int32 byterate
    ∧ is_int16 align ∧ is_int16 depth
    ∧ md = with_fmt_fields 1 channels rate byterate align depth ∅.

(** A limited reader over a stream that has moved from [l] to [l']: it
    has taken [j] bytes off the stream and off its limit, and no more
    than the limit allowed. *)
Definition within_limit (l l' : LimitedReader (list byte)) : Prop :=
  ∃ j : nat,
    (j ≤ Z.to_nat (LN l))%nat
    ∧ LR l' = drop j (LR l)
    ∧ LN l' = LN l - Z.of_nat j.

(** A reader function, and a method of [wav], that keep a limited
    reader within its limit, whether they fail or not. *)
Definition bounded_reader {A} (m : M (LimitedReader (list byte)) A) : Prop :=
  ∀ l, within_limit l (m l).1.

Definition bounded_method {A} (m : M (LimitedReader (list byte) * strmap) A) : Prop :=
  ∀ l md, within_limit l (m (l, md)).1.1.

(** The streams that the reader with [expectChunkID] accepts: "RIFF",
    four bytes of length, "WAVE", "fmt ", the length 16, the tag 1 and
    fourteen more bytes; [rest] is what follows them and [w] the [wav]
    they decode to. *)
Definition pcm_container (s rest : list byte) (w : GetterB.wav) : Prop :=
  ∃ l0 l1 l2 l3 c0 c1 r0 r1 r2 r3 y0 y1 y2 y3 a0 a1 d0 d1 : byte,
    s = riff [l0; l1; l2; l3]
          (bytes "fmt " ++ le32 16 ++ le16 1 ++
           [c0; c1; r0; r1; r2; r3; y0; y1; y2; y3; a0; a1; d0; d1] ++ rest)
    ∧ w = {| GetterB.length := to_int32 (Uint32 l0 l1 l2 l3);
             GetterB.store :=
               with_fmt_fields 1 (to_int16 (Uint16 c0 c1))
                 (to_int32 (Uint32 r0 r1 r2 r3)) (to_int32 (Uint32 y0 y1 y2 y3))
                 (to_int16 (Uint16 a0 a1)) (to_int16 (Uint16 d0 d1)) ∅ |}.

(** The streams from which [New] returns fields: "RIFF", four bytes of
    length, "WAVE", "fmt ", a declared length of at least 16, the tag 1
    and fourteen more bytes; [rest] is what follows them and [md] the
    map they decode to. *)
Definition fmt_container (s rest : list byte) (md : strmap) : Prop :=
  ∃ l0 l1 l2 l3 n0 n1 n2 n3 c0 c1 r0 r1 r2 r3 y0 y1 y2 y3 a0 a1 d0 d1 : byte,
    16 ≤ to_int32 (Uint32 n0 n1 n2 n3)
    ∧ s = riff [l0; l1; l2; l3]
            (bytes "fmt " ++ [n0; n1; n2; n3] ++ le16 1 ++
             [c0; c1; r0; r1; r2; r3; y0; y1; y2; y3; a0; a1; d0; d1] ++ rest)
    ∧ md = with_fmt_fields 1 (to_int16 (Uint16 c0 c1))
             (to_int32 (Uint32 r0 r1 r2 r3)) (to_int32 (Uint32 y0 y1 y2 y3))
             (to_int16 (Uint16 a0 a1)) (to_int16 (Uint16 d0 d1)) ∅.

(** ** Facts about the runtime model *)

Section RuntimeFacts.

Lemma byte_val_bounds b : 0 ≤ byte_val b < 256.
Proof.
  unfold byte_val. pose proof (Byte.to_N_bounded b). lia.
Qed.

Lemma lor_shiftl_add a b n :
  0 ≤ n → 0 ≤ a < 2 ^ n → Z.lor a (Z.shiftl b n) = a + b * 2 ^ n.
Proof.
  intros Hn Ha. rewrite <- Z.add_lor_land, Z.shiftl_mul_pow2 by done.
  rewrite <- Z.shiftl_mul_pow2 by done.
  assert (Z.land a (Z.shiftl b n) = 0) as ->; [|lia].
  apply Z.bits_inj'; intros m Hm.
  rewrite Z.land_spec, Z.bits_0.
  destruct (Z.lt_ge_cases m n) as [Hlt|Hge].
  - rewrite Z.shiftl_spec_low by done. apply andb_false_r.
  - assert (Z.testbit a m = false) as ->; [|reflexivity].
    apply Z.testbit_false; [done|]. rewrite Z.div_small; [done|].
    split; [lia|]. apply Z.lt_le_trans with (2 ^ n); [lia|].
    apply Z.pow_le_mono_r; lia.
Qed.

Lemma Uint16_add b0 b1 : Uint16 b0 b1 = byte_val b0 + byte_val b1 * 2 ^ 8.
Proof.
  unfold Uint16. pose proof (byte_val_bounds b0).
  apply lor_shiftl_add; lia.
Qed.

Lemma Uint32_add b0 b1 b2 b3 :
  Uint32 b0 b1 b2 b3
  = byte_val b0 + byte_val b1 * 2 ^ 8 + byte_val b2 * 2 ^ 16 + byte_val b3 * 2 ^ 24.
Proof.
  unfold Uint32.
  pose proof (byte_val_bounds b0). pose proof (byte_val_bounds b1).
  pose proof (byte_val_bounds b2). pose proof (byte_val_bounds b3).
  rewrite (lor_shiftl_add (byte_val b0)) by lia.
  rewrite (lor_shiftl_add (_ + _)) by lia.
  rewrite (lor_shiftl_add (_ + _)) by lia.
  reflexivity.
Qed.

Lemma Uint16_bounds b0 b1 : 0 ≤ Uint16 b0 b1 < 2 ^ 16.
Proof.
  rewrite Uint16_add.
  pose proof (byte_val_bounds b0). pose proof (byte_val_bounds b1). lia.
Qed.

Lemma Uint32_bounds b0 b1 b2 b3 : 0 ≤ Uint32 b0 b1 b2 b3 < 2 ^ 32.
Proof.
  rewrite Uint32_add.
  pose proof (byte_val_bounds b0). pose proof (byte_val_bounds b1).
  pose proof (byte_val_bounds b2). pose proof (byte_val_bounds b3). lia.
Qed.

(** A 16-bit tag is 1 as an [int16] exactly when it is 1 as read. *)
Lemma to_int16_Uint16_1 b0 b1 : to_int16 (Uint16 b0 b1) = 1 ↔ Uint16 b0 b1 = 1.
Proof.
  pose proof (Uint16_bounds b0 b1). unfold to_int16.
  destruct (Z.ltb_spec (Uint16 b0 b1) (2 ^ 15)); lia.
Qed.

(** A 32-bit length is 16 as an [int32] exactly when it is 16 as read. *)
Lemma to_int32_Uint32_16 b0 b1 b2 b3 :
  to_int32 (Uint32 b0 b1 b2 b3) = 16 ↔ Uint32 b0 b1 b2 b3 = 16.
Proof.
  pose proof (Uint32_bounds b0 b1 b2 b3). unfold to_int32.
  destruct (Z.ltb_spec (Uint32 b0 b1 b2 b3) (2 ^ 31)); lia.
Qed.

Lemma byte_val_byte_of v : byte_val (byte_of v) = v mod 256.
Proof.
  unfold byte_val, byte_of.
  pose proof (Z.mod_pos_bound v 256 eq_refl) as Hv.
  destruct (Byte.of_N (Z.to_N (v mod 256))) as [b|] eqn:E.
  - apply Byte.to_of_N in E. rewrite E. lia.
  - pose proof (Byte.to_of_N_option_map (Z.to_N (v mod 256))) as Ho.
    rewrite E in Ho. cbn in Ho.
    destruct (N.leb_spec (Z.to_N (v mod 256)) 255); [discriminate|lia].
Qed.

(** [le16] and [le32] are the encodings that [Uint16] and [Uint32]
    decode. *)
Lemma Uint16_le16 v :
  0 ≤ v < 2 ^ 16 → Uint16 (byte_of v) (byte_of (v / 2 ^ 8)) = v.
Proof.
  intros Hv. rewrite Uint16_add, !byte_val_byte_of.
  rewrite (Z.mod_small (v / 2 ^ 8)) by (split; [apply Z.div_pos; lia|apply Z.div_lt_upper_bound; lia]).
  change 256 with (2 ^ 8). pose proof (Z.div_mod v (2 ^ 8)). lia.
Qed.

Lemma Uint32_le32 v :
  0 ≤ v < 2 ^ 32 →
  Uint32 (byte_of v) (byte_of (v / 2 ^ 8)) (byte_of (v / 2 ^ 16)) (byte_of (v / 2 ^ 24)) = v.
Proof.
  intros Hv. rewrite Uint32_add, !byte_val_byte_of.
  change 256 with (2 ^ 8).
  rewrite (Z.mod_small (v / 2 ^ 24)) by (split; [apply Z.div_pos; lia|apply Z.div_lt_upper_bound; lia]).
  pose proof (Z.div_mod v (2 ^ 8)).
  pose proof (Z.div_mod (v / 2 ^ 8) (2 ^ 8)).
  pose proof (Z.div_mod (v / 2 ^ 16) (2 ^ 8)).
  replace (v / 2 ^ 8 / 2 ^ 8) with (v / 2 ^ 16) in * by (rewrite Z.div_div by lia; reflexivity).
  replace (v / 2 ^ 16 / 2 ^ 8) with (v / 2 ^ 24) in * by (rewrite Z.div_div by lia; reflexivity).
  lia.
Qed.

Lemma Read_stream_cons (b : byte) s n :
  Read (b :: s) n = (drop n (b :: s), (take n (b :: s), None)).
Proof. reflexivity. Qed.

Lemma binary_Read_int32_stream b0 b1 b2 b3 (s : list byte) :
  binary_Read_int32 (b0 :: b1 :: b2 :: b3 :: s) = (s, Ok (to_int32 (Uint32 b0 b1 b2 b3))).
Proof. reflexivity. Qed.

Lemma binary_Read_int16_stream b0 b1 (s : list byte) :
  binary_Read_int16 (b0 :: b1 :: s) = (s, Ok (to_int16 (Uint16 b0 b1))).
Proof. reflexivity. Qed.


Lemma binary_Read_int16_limited b0 b1 (s : list byte) n :
  2 ≤ n →
  binary_Read_int16 (LimitReader (b0 :: b1 :: s) n)
  = (LimitReader s (n - 2), Ok (to_int16 (Uint16 b0 b1))).
Proof.
  intros Hn. unfold binary_Read_int16, ReadFull. cbn [ReadFull_loop length Nat.leb Nat.sub].
  unfold Read at 1, Limited_Reader. cbn [LN LR].
  destruct (Z.leb_spec n 0); [lia|].
  destruct (Z.gtb_spec (Z.of_nat 2) n) as [Hgt|_]; [lia|].
  rewrite Read_stream_cons. cbn. rewrite take_0, drop_0. reflexivity.
Qed.

Lemma binary_Read_int32_limited b0 b1 b2 b3 (s : list byte) n :
  4 ≤ n →
  binary_Read_int32 (LimitReader (b0 :: b1 :: b2 :: b3 :: s) n)
  = (LimitReader s (n - 4), Ok (to_int32 (Uint32 b0 b1 b2 b3))).
Proof.
  intros Hn. unfold binary_Read_int32, ReadFull. cbn [ReadFull_loop length Nat.leb Nat.sub].
  unfold Read at 1, Limited_Reader. cbn [LN LR].
  destruct (Z.leb_spec n 0); [lia|].
  destruct (Z.gtb_spec (Z.of_nat 4) n) as [Hgt|_]; [lia|].
  rewrite Read_stream_cons. cbn. rewrite take_0, drop_0. reflexivity.
Qed.

Lemma blackHoleSize_pos : (0 < blackHoleSize)%nat.
Proof. unfold blackHoleSize. lia. Qed.

Lemma Read_limited_stream (s : list byte) N B :
  0 < N → s ≠ [] →
  let n := if Z.of_nat B >? N then Z.to_nat N else B in
  Read (LimitReader s N) B
  = (LimitReader (drop n s) (N - Z.of_nat (length (take n s))), (take n s, None)).
Proof.
  intros HN Hs n. unfold Read at 1, Limited_Reader. cbn [LN LR].
  destruct (Z.leb_spec N 0); [lia|].
  fold n. destruct s as [|b s]; [done|]. rewrite Read_stream_cons. reflexivity.
Qed.

(** [io.ReadFull] on a stream: all [n] bytes, or [io.EOF] when nothing
    remains, or [io.ErrUnexpectedEOF] after the bytes that remain.  The
    fuel never runs out. *)
Lemma ReadFull_stream (s : list byte) n :
  (0 < n)%nat →
  ReadFull s n
  = if (length s =? 0)%nat then ([], ([], Some EOF))
    else if (n <=? length s)%nat then (drop n s, (take n s, None))
    else ([], (s, Some ErrUnexpectedEOF)).
Proof.
  intros Hn. unfold ReadFull. cbn [ReadFull_loop length].
  destruct (Nat.leb_spec n 0) as [|_]; [lia|].
  rewrite Nat.sub_0_r. destruct s as [|b s].
  { unfold Read, stream_Reader. cbn [app length Nat.eqb Nat.ltb Nat.leb andb].
    destruct (Nat.leb_spec n 0); [lia|]. reflexivity. }
  rewrite Read_stream_cons. cbn [app]. change (length (b :: s) =? 0)%nat with false.
  cbv iota. destruct n as [|n]; [lia|]. cbn [ReadFull_loop].
  rewrite length_take.
  destruct (Nat.leb_spec (S n) (length (b :: s))) as [Hle|Hgt].
  - destruct (Nat.leb_spec (S n) (S n `min` length (b :: s))); [reflexivity|lia].
  - destruct (Nat.leb_spec (S n) (S n `min` length (b :: s))); [lia|].
    rewrite drop_ge, take_ge by lia.
    unfold Read, stream_Reader. rewrite app_nil_r.
    destruct (Nat.leb_spec (S n) (length (b :: s))); [lia|]. reflexivity.
Qed.

(** [io.ReadFull] on a limited reader over a stream, where [j] is the
    number of bytes that the limit and the stream allow. *)
Lemma ReadFull_limited_stream (s : list byte) N n :
  (0 < n)%nat →
  let j := ((n `min` Z.to_nat N) `min` length s)%nat in
  ReadFull (LimitReader s N) n
  = (LimitReader (drop j s) (N - Z.of_nat j),
     (take j s,
      if (j =? 0)%nat then Some EOF
      else if (n <=? j)%nat then None
      else Some ErrUnexpectedEOF)).
Proof.
  intros Hn j. unfold ReadFull. cbn [ReadFull_loop length].
  destruct (Nat.leb_spec n 0) as [|_]; [lia|]. rewrite Nat.sub_0_r.
  destruct (Z.leb_spec N 0) as [HN|HN].
  { unfold Read at 1, Limited_Reader. cbn [LN LR].
    destruct (Z.leb_spec N 0); [|lia]. cbn [app length Nat.ltb Nat.leb andb].
    destruct (Nat.leb_spec n 0); [lia|].
    replace j with 0%nat by lia. rewrite drop_0, take_0. cbn. repeat f_equal; lia. }
  destruct s as [|b s].
  { unfold Read at 1, Limited_Reader. cbn [LN LR].
    destruct (Z.leb_spec N 0); [lia|].
    unfold Read, stream_Reader. cbn [app length Nat.ltb Nat.leb andb].
    destruct (Nat.leb_spec n 0); [lia|].
    replace j with 0%nat by (subst j; cbn [length]; lia). cbn. repeat f_equal; lia. }
  rewrite Read_limited_stream by (done || lia).
  set (k := if Z.of_nat n >? N then Z.to_nat N else n).
  assert (k = (n `min` Z.to_nat N)%nat) as Hk
    by (subst k; destruct (Z.gtb_spec (Z.of_nat n) N); lia).
  pose proof (length_take (b :: s) k) as Hlt.
  assert (j = (k `min` length (b :: s))%nat) as Hj by (subst j; lia).
  assert (0 < j)%nat as Hjpos by (cbn [length] in *; lia).
  cbn [app]. destruct n as [|n]; [lia|]. cbn [ReadFull_loop].
  rewrite Hlt, <- Hj.
  destruct (Nat.eqb_spec j 0) as [|_]; [lia|].
  destruct (Nat.leb_spec (S n) j) as [Hle|Hgt].
  { replace k with j by lia. reflexivity. }
  assert (Read (LimitReader (drop k (b :: s)) (N - Z.of_nat j)) (S n - j)
          = (LimitReader (drop k (b :: s)) (N - Z.of_nat j), ([], Some EOF))) as ->.
  { unfold Read at 1, Limited_Reader. cbn [LN LR].
    destruct (Z.leb_spec (N - Z.of_nat j) 0) as [|HN']; [reflexivity|].
    rewrite drop_ge by lia. unfold Read, stream_Reader. cbn [length Z.of_nat].
    rewrite Z.sub_0_r. reflexivity. }
  rewrite app_nil_r, Hlt, <- Hj.
  destruct (Nat.leb_spec (S n) j); [lia|].
  destruct (Nat.ltb_spec 0 j); [|lia]. cbn [andb is_EOF].
  destruct (decide (k ≤ length (b :: s))%nat).
  - replace k with j by lia. reflexivity.
  - rewrite (drop_ge _ k), (take_ge _ k) by lia.
    replace j with (length (b :: s)) by lia.
    rewrite drop_ge, take_ge by lia. reflexivity.
Qed.

(** The discarding copy from a limited reader over a stream stops at
    the limit or at the end of the stream, whichever comes first; the
    fuel of [CopyN_Discard] is enough for it. *)
Lemma Discard_ReadFrom_limited_stream fuel : ∀ (s : list byte) N w,
  (Z.to_nat N `min` length s < fuel)%nat →
  let k := (Z.to_nat N `min` length s)%nat in
  Discard_ReadFrom fuel (LimitReader s N) w
  = (LimitReader (drop (Z.to_nat N) s) (N - Z.of_nat k), (w + Z.of_nat k, None)).
Proof.
  induction fuel as [|fuel IH]; intros s N w Hfuel k; [lia|].
  cbn [Discard_ReadFrom].
  destruct (Z.leb_spec N 0) as [HN|HN].
  { unfold Read at 1, Limited_Reader. cbn [LN LR].
    destruct (Z.leb_spec N 0); [|lia]. cbn [is_EOF length].
    replace k with 0%nat by lia. replace (Z.to_nat N) with 0%nat by lia.
    rewrite drop_0. repeat f_equal; lia. }
  destruct s as [|b s].
  { unfold Read at 1, Limited_Reader. cbn [LN LR].
    destruct (Z.leb_spec N 0); [lia|]. cbn.
    replace k with 0%nat by (subst k; cbn; lia). rewrite drop_nil.
    repeat f_equal; lia. }
  rewrite Read_limited_stream by (done || lia).
  set (n := if Z.of_nat blackHoleSize >? N then Z.to_nat N else blackHoleSize).
  pose proof blackHoleSize_pos as HB.
  assert (0 < n ≤ Z.to_nat N)%nat as Hn
    by (subst n; destruct (Z.gtb_spec (Z.of_nat blackHoleSize) N); lia).
  pose proof (length_take (b :: s) n) as Hlt.
  pose proof (length_drop (b :: s) n) as Hld.
  cbn [length] in *.
  rewrite IH by lia. cbv zeta.
  rewrite drop_drop, Hlt, Hld. subst k. cbn [length].
  f_equal; [f_equal; [|lia] | f_equal; lia].
  destruct (decide (n ≤ S (length s))%nat).
  - f_equal; lia.
  - rewrite !drop_ge by (cbn [length]; lia). reflexivity.
Qed.

(** [io.CopyN] into the discarding writer: exactly [n] bytes when they
    are there, [io.EOF] after the bytes that remain when they are not,
    nothing for [n <= 0]. *)
Lemma CopyN_Discard_stream (s : list byte) n :
  0 ≤ n ≤ Z.of_nat (length s) →
  CopyN_Discard s n = (drop (Z.to_nat n) s, (n, None)).
Proof.
  intros Hn. unfold CopyN_Discard.
  rewrite Discard_ReadFrom_limited_stream by lia. cbv zeta.
  replace (Z.to_nat n `min` length s)%nat with (Z.to_nat n) by lia.
  cbn [LR]. replace (0 + Z.of_nat (Z.to_nat n)) with n by lia.
  rewrite Z.eqb_refl. reflexivity.
Qed.

Lemma CopyN_Discard_stream_short (s : list byte) n :
  Z.of_nat (length s) < n →
  CopyN_Discard s n = ([], (Z.of_nat (length s), Some EOF)).
Proof.
  intros Hn. unfold CopyN_Discard.
  rewrite Discard_ReadFrom_limited_stream by lia. cbv zeta.
  replace (Z.to_nat n `min` length s)%nat with (length s) by lia.
  cbn [LR]. rewrite drop_ge by lia.
  destruct (Z.eqb_spec (0 + Z.of_nat (length s)) n); [lia|].
  destruct (Z.ltb_spec (0 + Z.of_nat (length s)) n); [|lia].
  reflexivity.
Qed.

Lemma CopyN_Discard_stream_neg (s : list byte) n :
  n ≤ 0 → CopyN_Discard s n = (s, (0, None)).
Proof.
  intros Hn. unfold CopyN_Discard.
  rewrite Discard_ReadFrom_limited_stream by lia. cbv zeta.
  replace (Z.to_nat n `min` length s)%nat with 0%nat by lia.
  replace (Z.to_nat n) with 0%nat by lia.
  cbn [LR]. rewrite drop_0. change (0 + Z.of_nat 0) with 0.
  destruct (Z.eqb_spec 0 n); [subst; reflexivity|].
  destruct (Z.ltb_spec 0 n); [lia|]. reflexivity.
Qed.

End RuntimeFacts.

(** ** The reader with [readSubchunks] on a stream *)

Section TagsFacts.

Lemma Tags_readFourCC_stream a b c d (s : list byte) :
  Tags.readFourCC (a :: b :: c :: d :: s) = (s, Ok [a; b; c; d]).
Proof. reflexivity. Qed.

Lemma Tags_expectFourCC_stream expected a b c d (s : list byte) :
  Tags.expectFourCC expected (a :: b :: c :: d :: s)
  = (s, if String.eqb expected (string_of [a; b; c; d]) then Ok tt
        else Err (ErrExpectedChunkID expected (string_of [a; b; c; d]))).
Proof.
  unfold Tags.expectFourCC, bind. rewrite Tags_readFourCC_stream.
  destruct (String.eqb _ _); reflexivity.
Qed.

Lemma Tags_readChunk_stream a b c d n0 n1 n2 n3 (s : list byte) :
  Tags.readChunk (a :: b :: c :: d :: n0 :: n1 :: n2 :: n3 :: s)
  = (s, Ok (string_of [a; b; c; d], to_int32 (Uint32 n0 n1 n2 n3),
            LimitReader s (to_int32 (Uint32 n0 n1 n2 n3)))).
Proof.
  unfold Tags.readChunk, bind.
  rewrite Tags_readFourCC_stream, binary_Read_int32_stream. reflexivity.
Qed.

Lemma Tags_readAudioFormat_limited t0 t1 (s : list byte) n md :
  2 ≤ n →
  Tags.readAudioFormat (LimitReader (t0 :: t1 :: s) n, md)
  = if 1 =? to_int16 (Uint16 t0 t1)
    then ((LimitReader s (n - 2),
           <["AudioFormat" := FormatInt (to_int16 (Uint16 t0 t1))]> md), Ok tt)
    else ((LimitReader s (n - 2), md), Err (ErrPcmAudioFormat 1 (to_int16 (Uint16 t0 t1)))).
Proof.
  intros Hn. unfold Tags.readAudioFormat, bind, onReader.
  rewrite binary_Read_int16_limited by done.
  destruct (1 =? _); reflexivity.
Qed.

Lemma Tags_readInt16_limited prop b0 b1 (s : list byte) n md :
  2 ≤ n →
  Tags.readInt16 prop (LimitReader (b0 :: b1 :: s) n, md)
  = ((LimitReader s (n - 2), <[prop := FormatInt (to_int16 (Uint16 b0 b1))]> md), Ok tt).
Proof.
  intros Hn. unfold Tags.readInt16, bind, onReader.
  rewrite binary_Read_int16_limited by done. reflexivity.
Qed.

Lemma Tags_readInt32_limited prop b0 b1 b2 b3 (s : list byte) n md :
  4 ≤ n →
  Tags.readInt32 prop (LimitReader (b0 :: b1 :: b2 :: b3 :: s) n, md)
  = ((LimitReader s (n - 4), <[prop := FormatInt (to_int32 (Uint32 b0 b1 b2 b3))]> md), Ok tt).
Proof.
  intros Hn. unfold Tags.readInt32, bind, onReader.
  rewrite binary_Read_int32_limited by done. reflexivity.
Qed.

(** A payload of at least sixteen bytes, within a limit of at least
    sixteen, whose tag is 1: all six fields are stored. *)
Lemma Tags_readFormat_limited t0 t1 c0 c1 r0 r1 r2 r3 y0 y1 y2 y3 a0 a1 d0 d1
    (s : list byte) n md :
  16 ≤ n →
  to_int16 (Uint16 t0 t1) = 1 →
  Tags.readFormat
    (LimitReader (t0 :: t1 :: c0 :: c1 :: r0 :: r1 :: r2 :: r3 ::
                  y0 :: y1 :: y2 :: y3 :: a0 :: a1 :: d0 :: d1 :: s) n, md)
  = ((LimitReader s (n - 16),
      with_fmt_fields 1 (to_int16 (Uint16 c0 c1)) (to_int32 (Uint32 r0 r1 r2 r3))
        (to_int32 (Uint32 y0 y1 y2 y3)) (to_int16 (Uint16 a0 a1))
        (to_int16 (Uint16 d0 d1)) md), Ok tt).
Proof.
  intros Hn Htag. unfold Tags.readFormat, bind at 1.
  rewrite Tags_readAudioFormat_limited, Htag by lia. cbn [Z.eqb Pos.eqb].
  unfold bind at 1. rewrite Tags_readInt16_limited by lia.
  unfold bind at 1. rewrite Tags_readInt32_limited by lia.
  unfold bind at 1. rewrite Tags_readInt32_limited by lia.
  unfold bind at 1. rewrite Tags_readInt16_limited by lia.
  unfold bind at 1. rewrite Tags_readInt16_limited by lia.
  unfold ret, with_fmt_fields. do 3 f_equal. lia.
Qed.

Lemma Tags_readSubchunks_stream a b c d n0 n1 n2 n3 (s : list byte) md :
  Tags.readSubchunks (a :: b :: c :: d :: n0 :: n1 :: n2 :: n3 :: s, md)
  = let id := string_of [a; b; c; d] in
    let length := to_int32 (Uint32 n0 n1 n2 n3) in
    let data := LimitReader s length in
    if String.eqb id "fmt " then Tags.onData data Tags.readFormat (s, md)
    else if String.eqb id "data" then
      match CopyN_Discard s length with
      | (r', (_, Some e)) => ((r', md), Err e)
      | (r', (_, None)) => ((r', md), Ok tt)
      end
    else if String.eqb id "LIST" then Tags.onData data Tags.readList (s, md)
    else if String.eqb id "INFO" then Tags.onData data Tags.readInfo (s, md)
    else ((s, md), Err (ErrUnrecognizedChunkID id)).
Proof.
  unfold Tags.readSubchunks, bind, onReader at 1.
  rewrite Tags_readChunk_stream. cbv zeta.
  destruct (String.eqb _ "fmt "); [reflexivity|].
  destruct (String.eqb _ "data").
  { unfold onReader. destruct (CopyN_Discard _ _) as [r' [w [e|]]]; reflexivity. }
  destruct (String.eqb _ "LIST"); [reflexivity|].
  destruct (String.eqb _ "INFO"); reflexivity.
Qed.

Lemma Tags_newWav_stream l0 l1 l2 l3 t0 t1 t2 t3 (s : list byte) :
  Tags.newWav (l0 :: l1 :: l2 :: l3 :: t0 :: t1 :: t2 :: t3 :: s)
  = if String.eqb "WAVE" (string_of [t0; t1; t2; t3]) then
      match Tags.readSubchunks (s, ∅) with
      | ((r, _), Err e) => (r, (None, Some e))
      | ((r, metadata), Ok _) => (r, (Some metadata, None))
      end
    else (s, (None, Some (ErrExpectedChunkID "WAVE" (string_of [t0; t1; t2; t3])))).
Proof.
  unfold Tags.newWav.
  rewrite binary_Read_int32_stream, Tags_expectFourCC_stream.
  destruct (String.eqb _ _); reflexivity.
Qed.

Lemma Tags_New_RIFF newID3 (s : list byte) :
  Tags.New newID3 ("R" :: "I" :: "F" :: "F" :: s)%byte
  = let '(r, (getter, err)) := Tags.newWav s in
    match err with
    | Some e => if is_EOF e then (r, (getter, None)) else (r, (None, Some e))
    | None => (r, (getter, None))
    end.
Proof.
  unfold Tags.New, Tags.checkRIFFLastByte. rewrite Read_stream_cons.
  cbn. rewrite !take_0, !drop_0. cbn.
  change (Z.of_nat 3) with 3. change (Z.of_nat 1) with 1. cbn.
  destruct (Tags.newWav s) as [r [getter [e|]]]; [|reflexivity].
  destruct (is_EOF e); reflexivity.
Qed.

(** A format chunk right after the "WAVE" tag, of declared length at
    least sixteen and with tag 1: [New] returns its six fields and leaves
    the reader where the sixteenth payload byte ends. *)
Lemma Tags_New_fmt newID3 l0 l1 l2 l3 n0 n1 n2 n3
    t0 t1 c0 c1 r0 r1 r2 r3 y0 y1 y2 y3 a0 a1 d0 d1 (rest : list byte) :
  16 ≤ to_int32 (Uint32 n0 n1 n2 n3) →
  to_int16 (Uint16 t0 t1) = 1 →
  Tags.New newID3
    (riff [l0; l1; l2; l3]
       (bytes "fmt " ++ [n0; n1; n2; n3] ++
        [t0; t1; c0; c1; r0; r1; r2; r3; y0; y1; y2; y3; a0; a1; d0; d1] ++ rest))
  = (rest,
     (Some (with_fmt_fields 1 (to_int16 (Uint16 c0 c1)) (to_int32 (Uint32 r0 r1 r2 r3))
              (to_int32 (Uint32 y0 y1 y2 y3)) (to_int16 (Uint16 a0 a1))
              (to_int16 (Uint16 d0 d1)) ∅), None)).
Proof.
  intros Hn Htag.
  change (riff _ _) with
    ("R" :: "I" :: "F" :: "F" :: l0 :: l1 :: l2 :: l3 :: "W" :: "A" :: "V" :: "E" ::
     "f" :: "m" :: "t" :: " " :: n0 :: n1 :: n2 :: n3 ::
     t0 :: t1 :: c0 :: c1 :: r0 :: r1 :: r2 :: r3 ::
     y0 :: y1 :: y2 :: y3 :: a0 :: a1 :: d0 :: d1 :: rest)%byte.
  rewrite Tags_New_RIFF, Tags_newWav_stream.
  change (String.eqb "WAVE" _) with true. cbv iota.
  rewrite Tags_readSubchunks_stream. cbv zeta.
  change (String.eqb _ "fmt ") with true. cbv iota.
  unfold Tags.onData. rewrite Tags_readFormat_limited by done. reflexivity.
Qed.

End TagsFacts.

(** The first steps of [New] on "RIFF", a length and "WAVE": what is
    left is [readSubchunks] on the rest of the stream. *)
Ltac enter_wave :=
  rewrite Tags_New_RIFF, Tags_newWav_stream;
  change (String.eqb "WAVE" _) with true; cbv iota.

(** ** The reader with [expectChunkID] on a stream *)

Section GetterFacts.

Lemma GetterB_readChunkID_stream a b c d (s : list byte) md :
  GetterB.readChunkID (a :: b :: c :: d :: s, md) = ((s, md), Ok [a; b; c; d]).
Proof. reflexivity. Qed.

Lemma GetterB_expectChunkID_stream expected a b c d (s : list byte) md :
  GetterB.expectChunkID expected (a :: b :: c :: d :: s, md)
  = ((s, md), if String.eqb expected (string_of [a; b; c; d]) then Ok tt
              else Err (ErrExpectedChunkID expected (string_of [a; b; c; d]))).
Proof.
  unfold GetterB.expectChunkID, bind. rewrite GetterB_readChunkID_stream.
  destruct (String.eqb _ _); reflexivity.
Qed.

Lemma GetterB_readFormatLength_stream n0 n1 n2 n3 (s : list byte) md :
  GetterB.readFormatLength (n0 :: n1 :: n2 :: n3 :: s, md)
  = ((s, md), if 16 =? to_int32 (Uint32 n0 n1 n2 n3) then Ok tt
              else Err (ErrFmtChunkLength 16 (to_int32 (Uint32 n0 n1 n2 n3)))).
Proof.
  unfold GetterB.readFormatLength, bind, onReader.
  rewrite binary_Read_int32_stream. destruct (16 =? _); reflexivity.
Qed.

Lemma GetterB_readAudioFormat_stream t0 t1 (s : list byte) md :
  GetterB.readAudioFormat (t0 :: t1 :: s, md)
  = if 1 =? to_int16 (Uint16 t0 t1)
    then ((s, <["AudioFormat" := FormatInt (to_int16 (Uint16 t0 t1))]> md), Ok tt)
    else ((s, md), Err (ErrPcmAudioFormat 1 (to_int16 (Uint16 t0 t1)))).
Proof.
  unfold GetterB.readAudioFormat, bind, onReader.
  rewrite binary_Read_int16_stream. destruct (1 =? _); reflexivity.
Qed.

Lemma GetterB_readInt16_stream prop b0 b1 (s : list byte) md :
  GetterB.readInt16 prop (b0 :: b1 :: s, md)
  = ((s, <[prop := FormatInt (to_int16 (Uint16 b0 b1))]> md), Ok tt).
Proof. reflexivity. Qed.

Lemma GetterB_readInt32_stream prop b0 b1 b2 b3 (s : list byte) md :
  GetterB.readInt32 prop (b0 :: b1 :: b2 :: b3 :: s, md)
  = ((s, <[prop := FormatInt (to_int32 (Uint32 b0 b1 b2 b3))]> md), Ok tt).
Proof. reflexivity. Qed.

(** The format chunk as this reader wants it: identifier "fmt ",
    declared length 16, tag 1. *)
Lemma GetterB_readFormat_stream n0 n1 n2 n3
    t0 t1 c0 c1 r0 r1 r2 r3 y0 y1 y2 y3 a0 a1 d0 d1 (s : list byte) md :
  to_int32 (Uint32 n0 n1 n2 n3) = 16 →
  to_int16 (Uint16 t0 t1) = 1 →
  GetterB.readFormat
    ("f" :: "m" :: "t" :: " " :: n0 :: n1 :: n2 :: n3 ::
     t0 :: t1 :: c0 :: c1 :: r0 :: r1 :: r2 :: r3 ::
     y0 :: y1 :: y2 :: y3 :: a0 :: a1 :: d0 :: d1 :: s, md)%byte
  = ((s, with_fmt_fields 1 (to_int16 (Uint16 c0 c1)) (to_int32 (Uint32 r0 r1 r2 r3))
           (to_int32 (Uint32 y0 y1 y2 y3)) (to_int16 (Uint16 a0 a1))
           (to_int16 (Uint16 d0 d1)) md), Ok tt).
Proof.
  intros Hn Htag. unfold GetterB.readFormat, bind at 1.
  rewrite GetterB_expectChunkID_stream.
  change (String.eqb "fmt " _) with true. cbv iota.
  unfold bind at 1. rewrite GetterB_readFormatLength_stream, Hn. cbn [Z.eqb Pos.eqb].
  unfold bind at 1. rewrite GetterB_readAudioFormat_stream, Htag. cbn [Z.eqb Pos.eqb].
  reflexivity.
Qed.

Lemma GetterB_newWav_stream l0 l1 l2 l3 t0 t1 t2 t3 (s : list byte) :
  GetterB.newWav (l0 :: l1 :: l2 :: l3 :: t0 :: t1 :: t2 :: t3 :: s)
  = if String.eqb "WAVE" (string_of [t0; t1; t2; t3]) then
      match GetterB.readFormat (s, ∅) with
      | ((r, _), Err e) => (r, (None, Some e))
      | ((r, md), Ok _) =>
          (r, (Some {| GetterB.length := to_int32 (Uint32 l0 l1 l2 l3);
                       GetterB.store := md |}, None))
      end
    else (s, (None, Some (ErrExpectedChunkID "WAVE" (string_of [t0; t1; t2; t3])))).
Proof.
  unfold GetterB.newWav. rewrite binary_Read_int32_stream.
  unfold bind at 1. rewrite GetterB_expectChunkID_stream.
  destruct (String.eqb _ _); reflexivity.
Qed.

Lemma NewGetter_RIFF {wav} (newWav newID3 : list byte → list byte * (option wav * option error))
    (s : list byte) :
  Getter.NewGetter newWav newID3 ("R" :: "I" :: "F" :: "F" :: s)%byte = newWav s.
Proof.
  unfold Getter.NewGetter. rewrite Read_stream_cons.
  cbn. rewrite !take_0, !drop_0. cbn.
  change (Z.of_nat 3) with 3. change (Z.of_nat 1) with 1. reflexivity.
Qed.

Lemma NewGetter_fmt (newID3 : list byte → list byte * (option GetterB.wav * option error))
    l0 l1 l2 l3 n0 n1 n2 n3
    t0 t1 c0 c1 r0 r1 r2 r3 y0 y1 y2 y3 a0 a1 d0 d1 (rest : list byte) :
  to_int32 (Uint32 n0 n1 n2 n3) = 16 →
  to_int16 (Uint16 t0 t1) = 1 →
  Getter.NewGetter GetterB.newWav newID3
    (riff [l0; l1; l2; l3]
       (bytes "fmt " ++ [n0; n1; n2; n3] ++
        [t0; t1; c0; c1; r0; r1; r2; r3; y0; y1; y2; y3; a0; a1; d0; d1] ++ rest))
  = (rest,
     (Some {| GetterB.length := to_int32 (Uint32 l0 l1 l2 l3);
              GetterB.store :=
                with_fmt_fields 1 (to_int16 (Uint16 c0 c1)) (to_int32 (Uint32 r0 r1 r2 r3))
                  (to_int32 (Uint32 y0 y1 y2 y3)) (to_int16 (Uint16 a0 a1))
                  (to_int16 (Uint16 d0 d1)) ∅ |}, None)).
Proof.
  intros Hn Htag.
  change (riff _ _) with
    ("R" :: "I" :: "F" :: "F" :: l0 :: l1 :: l2 :: l3 :: "W" :: "A" :: "V" :: "E" ::
     "f" :: "m" :: "t" :: " " :: n0 :: n1 :: n2 :: n3 ::
     t0 :: t1 :: c0 :: c1 :: r0 :: r1 :: r2 :: r3 ::
     y0 :: y1 :: y2 :: y3 :: a0 :: a1 :: d0 :: d1 :: rest)%byte.
  rewrite NewGetter_RIFF, GetterB_newWav_stream.
  change (String.eqb "WAVE" _) with true. cbv iota.
  rewrite GetterB_readFormat_stream by done. reflexivity.
Qed.

End GetterFacts.

(** ** The minimal container *)

(** C1. For every four-byte outer length, the stream made of "RIFF",
    the length, "WAVE" and the format chunk of declared length 16 that
    encodes tag 1, 2 channels, 44100 Hz, byte rate 176400, block
    alignment 4 and bit depth 16 is read to its end without error, by
    [New] (reader with [readSubchunks]) and by [NewGetter] (reader with
    [expectChunkID]); the map returned holds the six fields
    AudioFormat=1, NumChannels=2, SampleRate=44100, ByteRate=176400,
    BlockAlign=4, BitRate=16, each the decimal numeral of the integer
    read, and no other key. *)
Theorem minimal_container_six_fields
    (newID3 : list byte → list byte * (option strmap * option error))
    (newID3' : list byte → list byte * (option GetterB.wav * option error))
    (l0 l1 l2 l3 : byte) :
  let s := riff [l0; l1; l2; l3] cd_fmt_chunk in
  Tags.New newID3 s = ([], (Some cd_fields, None))
  ∧ Getter.NewGetter GetterB.newWav newID3' s
    = ([], (Some {| GetterB.length := to_int32 (Uint32 l0 l1 l2 l3);
                    GetterB.store := cd_fields |}, None))
  ∧ dom cd_fields
    = {[ "AudioFormat"; "NumChannels"; "SampleRate"; "ByteRate"; "BlockAlign"; "BitRate" ]}
  ∧ cd_fields = with_fmt_fields 1 2 44100 176400 4 16 ∅.
Proof.
  intros s; subst s. split; [|split; [|split]].
  - exact (Tags_New_fmt newID3 l0 l1 l2 l3 "016" "000" "000" "000"
             "001" "000" "002" "000" "D" "172" "000" "000"
             "016" "177" "002" "000" "004" "000" "016" "000" []
             ltac:(vm_compute; discriminate) eq_refl).
  - exact (NewGetter_fmt newID3' l0 l1 l2 l3 "016" "000" "000" "000"
             "001" "000" "002" "000" "D" "172" "000" "000"
             "016" "177" "002" "000" "004" "000" "016" "000" []
             eq_refl eq_refl).
  - unfold cd_fields. rewrite !dom_insert_L, dom_empty_L. set_solver.
  - reflexivity.
Qed.

(** The [Getter] returned for the minimal container answers [Get] with
    the fields, and with an error for any other key. *)
Lemma minimal_container_Get (length : Z) :
  let w := {| GetterB.length := length; GetterB.store := cd_fields |} in
  GetterB.Get w "SampleRate" = ("44100", None)
  ∧ GetterB.Get w "AudioFormat" = ("1", None)
  ∧ GetterB.Get w "Title" = ("", Some (ErrKeyDoesNotExist "Title")).
Proof. repeat split; vm_compute; reflexivity. Qed.

(** ** Sniffing the header *)

Section Sniffing.
Context {wav : Type}.
Variable newID3 : list byte → list byte * (option strmap * option error).
Variable newWav' newID3' : list byte → list byte * (option wav * option error).

Lemma Tags_New_other b0 b1 b2 (s : list byte) :
  string_of [b0; b1; b2] ≠ "TAG" →
  string_of [b0; b1; b2] ≠ "RIF" →
  Tags.New newID3 (b0 :: b1 :: b2 :: s)
  = (s, (None, Some (ErrUnrecognizedHeader (string_of [b0; b1; b2])))).
Proof.
  intros HTAG HRIF. apply String.eqb_neq in HTAG, HRIF.
  unfold Tags.New. rewrite Read_stream_cons.
  change (take 3 (b0 :: b1 :: b2 :: s)) with [b0; b1; b2].
  change (drop 3 (b0 :: b1 :: b2 :: s)) with s.
  cbv beta iota zeta. change (Z.of_nat (length [b0; b1; b2])) with 3.
  cbn [Z.eqb Pos.eqb negb]. rewrite HTAG, HRIF. reflexivity.
Qed.

Lemma NewGetter_other b0 b1 b2 (s : list byte) :
  string_of [b0; b1; b2] ≠ "TAG" →
  string_of [b0; b1; b2] ≠ "RIF" →
  Getter.NewGetter newWav' newID3' (b0 :: b1 :: b2 :: s)
  = (s, (None, Some (ErrUnrecognizedHeader (string_of [b0; b1; b2])))).
Proof.
  intros HTAG HRIF. apply String.eqb_neq in HTAG, HRIF.
  unfold Getter.NewGetter. rewrite Read_stream_cons.
  change (take 3 (b0 :: b1 :: b2 :: s)) with [b0; b1; b2].
  change (drop 3 (b0 :: b1 :: b2 :: s)) with s.
  cbv beta iota zeta. change (Z.of_nat (length [b0; b1; b2])) with 3.
  cbn [Z.eqb Pos.eqb negb]. rewrite HTAG, HRIF. reflexivity.
Qed.

Lemma Byte_eqb_neq (x y : byte) : x ≠ y → Byte.eqb x y = false.
Proof.
  intros Hne. destruct (Byte.eqb x y) eqn:E; [|reflexivity].
  apply Byte.byte_dec_bl in E. contradiction.
Qed.

Lemma Tags_New_RIF_other b (s : list byte) :
  b ≠ "F"%byte →
  Tags.New newID3 ("R" :: "I" :: "F" :: b :: s)%byte
  = (s, (None, Some (ErrExpectedRIFF (string_of ["R"; "I"; "F"; b]%byte)))).
Proof.
  intros Hb. apply Byte_eqb_neq in Hb.
  unfold Tags.New, Tags.checkRIFFLastByte. rewrite Read_stream_cons.
  cbn. rewrite !take_0, !drop_0. cbn.
  change (Z.of_nat 3) with 3. change (Z.of_nat 1) with 1. cbn.
  rewrite Hb. reflexivity.
Qed.

Lemma NewGetter_RIF_other b (s : list byte) :
  b ≠ "F"%byte →
  Getter.NewGetter newWav' newID3' ("R" :: "I" :: "F" :: b :: s)%byte
  = (s, (None, Some (ErrExpectedRIFF (string_of ["R"; "I"; "F"; b]%byte)))).
Proof.
  intros Hb. apply Byte_eqb_neq in Hb.
  unfold Getter.NewGetter. rewrite Read_stream_cons.
  cbn. rewrite !take_0, !drop_0. cbn.
  change (Z.of_nat 3) with 3. change (Z.of_nat 1) with 1. cbn.
  rewrite Hb. reflexivity.
Qed.

End Sniffing.

(** C7. A stream whose first three bytes are neither "TAG" nor "RIF" is
    rejected by [New] and by [NewGetter] with the error "unrecognized
    header: " followed by the three bytes, after three bytes have been
    consumed; a stream that starts with "RIF" and whose fourth byte is
    not 'F' is rejected with the error "expected RIFF, got " followed by
    the four bytes, after four bytes have been consumed.  These two
    errors are the specification's UnrecognizedHeader. *)
Theorem sniff_unrecognized_header {wav : Type}
    (newID3 : list byte → list byte * (option strmap * option error))
    (newWav' newID3' : list byte → list byte * (option wav * option error))
    (observed rest : list byte) :
  unrecognized_magic observed →
  sniff_rejects (Tags.New newID3 (observed ++ rest)) (observed ++ rest) observed
  ∧ sniff_rejects (Getter.NewGetter newWav' newID3' (observed ++ rest))
      (observed ++ rest) observed.
Proof.
  intros [(b0 & b1 & b2 & -> & HTAG & HRIF)|(b3 & -> & Hb3)]; cbn [app].
  - rewrite Tags_New_other, NewGetter_other by done.
    split; eexists _, _; (split; [reflexivity|]);
      (split; [left; reflexivity|]);
      (split; [exists "unrecognized header: "; reflexivity|]);
      (split; [reflexivity|cbn; lia]).
  - rewrite Tags_New_RIF_other, NewGetter_RIF_other by done.
    split; eexists _, _; (split; [reflexivity|]);
      (split; [right; reflexivity|]);
      (split; [exists "expected RIFF, got "; reflexivity|]);
      (split; [reflexivity|cbn; lia]).
Qed.

Lemma sniff_unrecognized_header_witness :
  (unrecognized_magic (bytes "Ogg")
   ∧ sniff_rejects (Tags.New noID3 (bytes "Ogg" ++ bytes "S"))
       (bytes "Ogg" ++ bytes "S") (bytes "Ogg")
   ∧ sniff_rejects (Getter.NewGetter GetterB.newWav noID3 (bytes "Ogg" ++ bytes "S"))
       (bytes "Ogg" ++ bytes "S") (bytes "Ogg"))
  ∧ (unrecognized_magic (bytes "RIFX")
     ∧ sniff_rejects (Tags.New noID3 (bytes "RIFX" ++ bytes "WAVE"))
         (bytes "RIFX" ++ bytes "WAVE") (bytes "RIFX")
     ∧ sniff_rejects (Getter.NewGetter GetterB.newWav noID3 (bytes "RIFX" ++ bytes "WAVE"))
         (bytes "RIFX" ++ bytes "WAVE") (bytes "RIFX")).
Proof.
  assert (unrecognized_magic (bytes "Ogg")) as HOgg.
  { left. exists "O"%byte, "g"%byte, "g"%byte.
    split; [reflexivity|split; discriminate]. }
  assert (unrecognized_magic (bytes "RIFX")) as HRIFX.
  { right. exists "X"%byte. split; [reflexivity|discriminate]. }
  split; (split; [eassumption|]).
  - exact (sniff_unrecognized_header noID3 GetterB.newWav noID3
             (bytes "Ogg") (bytes "S") HOgg).
  - exact (sniff_unrecognized_header noID3 GetterB.newWav noID3
             (bytes "RIFX") (bytes "WAVE") HRIFX).
Defined.

(** ** The container-format tag *)

(** C8. When the four bytes after the outer length are not "WAVE", the
    walker fails with the error "expected chunk ID WAVE, got " followed
    by the four bytes (the specification's UnexpectedFormat) and returns
    no map: [newWav] of the reader with
    [expectFourCC] and of the reader with [expectChunkID], and [New] and
    [NewGetter] above them, which pass the error on. *)
Theorem newWav_unexpected_format
    (newID3 : list byte → list byte * (option strmap * option error))
    (newID3' : list byte → list byte * (option GetterB.wav * option error))
    (l0 l1 l2 l3 t0 t1 t2 t3 : byte) (rest : list byte) :
  string_of [t0; t1; t2; t3] ≠ "WAVE" →
  let s := l0 :: l1 :: l2 :: l3 :: t0 :: t1 :: t2 :: t3 :: rest in
  let e := ErrExpectedChunkID "WAVE" (string_of [t0; t1; t2; t3]) in
  Tags.newWav s = (rest, (None, Some e))
  ∧ Tags.New newID3 (bytes "RIFF" ++ s) = (rest, (None, Some e))
  ∧ GetterB.newWav s = (rest, (None, Some e))
  ∧ Getter.NewGetter GetterB.newWav newID3' (bytes "RIFF" ++ s) = (rest, (None, Some e)).
Proof.
  intros Hne s e; subst s e.
  assert (String.eqb "WAVE" (string_of [t0; t1; t2; t3]) = false) as Heqb
    by (apply String.eqb_neq; congruence).
  change (bytes "RIFF" ++ ?s) with ("R" :: "I" :: "F" :: "F" :: s)%byte.
  rewrite Tags_New_RIFF, NewGetter_RIFF, Tags_newWav_stream, GetterB_newWav_stream, Heqb.
  repeat split; reflexivity.
Qed.

Lemma newWav_unexpected_format_witness :
  string_of (bytes "AVI ") ≠ "WAVE"
  ∧ Tags.New noID3 (bytes "RIFF" ++ le32 4 ++ bytes "AVI ")
    = ([], (None, Some (ErrExpectedChunkID "WAVE" "AVI "))).
Proof.
  assert (string_of (bytes "AVI ") ≠ "WAVE") as Hne by discriminate.
  split; [exact Hne|].
  exact (proj1 (proj2 (newWav_unexpected_format noID3 noID3
           "004" "000" "000" "000" "A" "V" "I" " " [] Hne))).
Defined.

(** ** The encoding tag *)

(** C6. A format chunk whose 16-bit little-endian tag is not 1 is
    refused with the error "expected pcm audio format 1, got " followed
    by the tag (the specification's UnsupportedEncoding), and the map is
    left as it was (no "AudioFormat").  This
    holds for [readFormat] of the reader with [readSubchunks], given a
    payload limit of at least two bytes, and for [readAudioFormat] of
    the reader with [expectChunkID]; [New] and [NewGetter] then return
    the error and no map. *)
Theorem readFormat_unsupported_encoding
    (newID3 : list byte → list byte * (option strmap * option error))
    (newID3' : list byte → list byte * (option GetterB.wav * option error))
    (l0 l1 l2 l3 n0 n1 n2 n3 t0 t1 : byte) (rest : list byte) (md : strmap) :
  Uint16 t0 t1 ≠ 1 →
  let n := to_int32 (Uint32 n0 n1 n2 n3) in
  let e := ErrPcmAudioFormat 1 (to_int16 (Uint16 t0 t1)) in
  let s := riff [l0; l1; l2; l3] (bytes "fmt " ++ [n0; n1; n2; n3] ++ t0 :: t1 :: rest) in
  (2 ≤ n →
   Tags.readFormat (LimitReader (t0 :: t1 :: rest) n, md)
   = ((LimitReader rest (n - 2), md), Err e)
   ∧ Tags.New newID3 s = (rest, (None, Some e)))
  ∧ GetterB.readAudioFormat (t0 :: t1 :: rest, md) = ((rest, md), Err e)
  ∧ (n = 16 →
     GetterB.readFormat (bytes "fmt " ++ [n0; n1; n2; n3] ++ t0 :: t1 :: rest, md)
     = ((rest, md), Err e)
     ∧ Getter.NewGetter GetterB.newWav newID3' s = (rest, (None, Some e))).
Proof.
  intros Htag n e s.
  assert ((1 =? to_int16 (Uint16 t0 t1)) = false) as Heqb.
  { apply Z.eqb_neq. intros Heq. apply Htag, to_int16_Uint16_1. done. }
  assert (∀ n' md', 2 ≤ n' →
            Tags.readFormat (LimitReader (t0 :: t1 :: rest) n', md')
            = ((LimitReader rest (n' - 2), md'), Err e)) as HTags.
  { intros n' md' Hn'. unfold Tags.readFormat, bind at 1.
    rewrite Tags_readAudioFormat_limited, Heqb by done. reflexivity. }
  assert (∀ md', GetterB.readAudioFormat (t0 :: t1 :: rest, md') = ((rest, md'), Err e))
    as HGetter.
  { intros md'. rewrite GetterB_readAudioFormat_stream, Heqb. reflexivity. }
  subst s.
  change (riff _ _) with
    ("R" :: "I" :: "F" :: "F" :: l0 :: l1 :: l2 :: l3 :: "W" :: "A" :: "V" :: "E" ::
     "f" :: "m" :: "t" :: " " :: n0 :: n1 :: n2 :: n3 :: t0 :: t1 :: rest)%byte.
  change (bytes "fmt " ++ _) with
    ("f" :: "m" :: "t" :: " " :: n0 :: n1 :: n2 :: n3 :: t0 :: t1 :: rest)%byte.
  split; [|split].
  - intros Hn. split; [apply HTags; done|].
    enter_wave.
    rewrite Tags_readSubchunks_stream. cbv zeta.
    change (String.eqb _ "fmt ") with true. cbv iota.
    unfold Tags.onData. fold n. rewrite HTags by done. reflexivity.
  - apply HGetter.
  - intros Hn.
    assert (GetterB.readFormat
              ("f" :: "m" :: "t" :: " " :: n0 :: n1 :: n2 :: n3 :: t0 :: t1 :: rest, md)%byte
            = ((rest, md), Err e)) as HreadFormat.
    { unfold GetterB.readFormat, bind at 1. rewrite GetterB_expectChunkID_stream.
      change (String.eqb "fmt " _) with true. cbv iota.
      unfold bind at 1. rewrite GetterB_readFormatLength_stream. fold n. rewrite Hn.
      cbn [Z.eqb Pos.eqb]. unfold bind at 1. rewrite HGetter. reflexivity. }
    split; [exact HreadFormat|].
    rewrite NewGetter_RIFF, GetterB_newWav_stream.
    change (String.eqb "WAVE" _) with true. cbv iota.
    assert (∀ md', GetterB.readFormat
              ("f" :: "m" :: "t" :: " " :: n0 :: n1 :: n2 :: n3 :: t0 :: t1 :: rest, md')%byte
            = ((rest, md'), Err e)) as ->; [|reflexivity].
    intros md'. unfold GetterB.readFormat, bind at 1. rewrite GetterB_expectChunkID_stream.
    change (String.eqb "fmt " _) with true. cbv iota.
    unfold bind at 1. rewrite GetterB_readFormatLength_stream. fold n. rewrite Hn.
    cbn [Z.eqb Pos.eqb]. unfold bind at 1. rewrite HGetter. reflexivity.
Qed.

Lemma readFormat_unsupported_encoding_witness :
  Uint16 "003" "000" ≠ 1
  ∧ Tags.New noID3
      (riff (le32 36) (chunk "fmt " 16 (fmt_payload 3 2 44100 352800 8 32)))
    = (drop 2 (fmt_payload 3 2 44100 352800 8 32), (None, Some (ErrPcmAudioFormat 1 3)))
  ∧ Getter.NewGetter GetterB.newWav noID3
      (riff (le32 36) (chunk "fmt " 16 (fmt_payload 3 2 44100 352800 8 32)))
    = (drop 2 (fmt_payload 3 2 44100 352800 8 32), (None, Some (ErrPcmAudioFormat 1 3))).
Proof.
  assert (Uint16 "003" "000" ≠ 1) as Htag by (vm_compute; discriminate).
  pose proof (readFormat_unsupported_encoding (@noID3 _ strmap) (@noID3 _ GetterB.wav)
                "$" "000" "000" "000" "016" "000" "000" "000" "003" "000"
                (drop 2 (fmt_payload 3 2 44100 352800 8 32)) ∅ Htag) as (HTags & _ & HGetter).
  split; [exact Htag|]. split.
  - exact (proj2 (HTags ltac:(vm_compute; discriminate))).
  - exact (proj2 (HGetter eq_refl)).
Defined.

(** ** One chunk per call *)

(** C2. [readSubchunks] reads one chunk header, dispatches that chunk
    and returns; [newWav] calls it once.  So whatever follows the first
    chunk stays unread: after a data chunk of two bytes [New] returns an
    empty map, and after a format chunk it returns the six fields, for
    every continuation [rest] of the stream, be it a further valid
    chunk, an unknown chunk or a truncated one. *)
Theorem New_reads_first_chunk_only
    (newID3 : list byte → list byte * (option strmap * option error))
    (l0 l1 l2 l3 p0 p1 : byte) (rest : list byte) :
  Tags.New newID3 (riff [l0; l1; l2; l3] (chunk "data" 2 [p0; p1] ++ rest))
  = (rest, (Some ∅, None))
  ∧ Tags.New newID3 (riff [l0; l1; l2; l3] (cd_fmt_chunk ++ rest))
    = (rest, (Some cd_fields, None)).
Proof.
  split.
  - change (riff _ _) with
      ("R" :: "I" :: "F" :: "F" :: l0 :: l1 :: l2 :: l3 :: "W" :: "A" :: "V" :: "E" ::
       "d" :: "a" :: "t" :: "a" :: "002" :: "000" :: "000" :: "000" ::
       p0 :: p1 :: rest)%byte.
    enter_wave.
    rewrite Tags_readSubchunks_stream. cbv zeta.
    change (String.eqb _ "fmt ") with false.
    change (String.eqb _ "data") with true. cbv iota.
    change (to_int32 _) with 2.
    rewrite CopyN_Discard_stream by (cbn [length]; lia). reflexivity.
  - exact (Tags_New_fmt newID3 l0 l1 l2 l3 "016" "000" "000" "000"
             "001" "000" "002" "000" "D" "172" "000" "000"
             "016" "177" "002" "000" "004" "000" "016" "000" rest
             ltac:(vm_compute; discriminate) eq_refl).
Qed.

(** ** Skipping the audio data *)

(** C4. A data chunk of declared length [L] whose [L] payload bytes
    are present is skipped byte for byte: the reader is left at the
    first byte after the payload.  [New] then returns an empty map
    without reading what follows, whatever it is. *)
Theorem data_chunk_skipped_then_return
    (newID3 : list byte → list byte * (option strmap * option error))
    (l0 l1 l2 l3 n0 n1 n2 n3 : byte) (payload rest : list byte) :
  let L := to_int32 (Uint32 n0 n1 n2 n3) in
  0 ≤ L →
  Z.of_nat (length payload) = L →
  Tags.New newID3
    (riff [l0; l1; l2; l3] (bytes "data" ++ [n0; n1; n2; n3] ++ payload ++ rest))
  = (rest, (Some ∅, None)).
Proof.
  intros L HL Hlen.
  change (riff _ _) with
    ("R" :: "I" :: "F" :: "F" :: l0 :: l1 :: l2 :: l3 :: "W" :: "A" :: "V" :: "E" ::
     "d" :: "a" :: "t" :: "a" :: n0 :: n1 :: n2 :: n3 :: payload ++ rest)%byte.
  enter_wave.
  rewrite Tags_readSubchunks_stream. cbv zeta.
  change (String.eqb _ "fmt ") with false.
  change (String.eqb _ "data") with true. cbv iota. fold L.
  rewrite CopyN_Discard_stream by (rewrite length_app; lia).
  rewrite <- Hlen, Nat2Z.id, drop_app_length. reflexivity.
Qed.

Lemma data_chunk_skipped_then_return_witness :
  0 ≤ to_int32 (Uint32 "003" "000" "000" "000")
  ∧ Z.of_nat (length (bytes "abc")) = to_int32 (Uint32 "003" "000" "000" "000")
  ∧ Tags.New noID3 (riff (le32 48) (chunk "data" 3 (bytes "abc") ++ cd_fmt_chunk))
    = (cd_fmt_chunk, (Some ∅, None)).
Proof.
  assert (0 ≤ to_int32 (Uint32 "003" "000" "000" "000")) as HL
    by (vm_compute; discriminate).
  assert (Z.of_nat (length (bytes "abc")) = to_int32 (Uint32 "003" "000" "000" "000"))
    as Hlen by reflexivity.
  split; [exact HL|]. split; [exact Hlen|].
  exact (data_chunk_skipped_then_return noID3 "0" "000" "000" "000"
           "003" "000" "000" "000" (bytes "abc") cd_fmt_chunk HL Hlen).
Defined.

(** ** The end of the stream inside a chunk header *)

(** C9. When the stream ends right after the four bytes of a chunk
    identifier, the read of the length returns [io.EOF], which [New]
    takes for the end of the chunks: it returns no error (and the nil
    map), where the specification asks for TruncatedChunk. *)
Theorem New_header_cut_after_id
    (newID3 : list byte → list byte * (option strmap * option error))
    (l0 l1 l2 l3 i0 i1 i2 i3 : byte) :
  Tags.readChunk [i0; i1; i2; i3] = ([], Err EOF)
  ∧ Tags.New newID3 (riff [l0; l1; l2; l3] [i0; i1; i2; i3]) = ([], (None, None)).
Proof.
  split; [reflexivity|].
  change (riff _ _) with
    ("R" :: "I" :: "F" :: "F" :: l0 :: l1 :: l2 :: l3 :: "W" :: "A" :: "V" :: "E" ::
     [i0; i1; i2; i3])%byte.
  rewrite Tags_New_RIFF, Tags_newWav_stream.
  change (String.eqb "WAVE" _) with true. reflexivity.
Qed.

(** At every other cut inside the eight header bytes [New] does return
    an error: a short read of the identifier, or [io.ErrUnexpectedEOF]
    from the read of the length. *)
Lemma New_header_cut_elsewhere
    (newID3 : list byte → list byte * (option strmap * option error))
    (l0 l1 l2 l3 : byte) (hdr : list byte) :
  (0 < length hdr < 8)%nat → length hdr ≠ 4%nat →
  ∃ e, Tags.New newID3 (riff [l0; l1; l2; l3] hdr) = ([], (None, Some e))
       ∧ (e = ErrShortRead 4 (Z.of_nat (length hdr)) ∨ e = ErrUnexpectedEOF).
Proof.
  intros Hlen Hne.
  change (riff _ _) with
    ("R" :: "I" :: "F" :: "F" :: l0 :: l1 :: l2 :: l3 :: "W" :: "A" :: "V" :: "E" :: hdr)%byte.
  enter_wave.
  destruct hdr as [|h0 [|h1 [|h2 [|h3 [|h4 [|h5 [|h6 [|h7 hdr]]]]]]]];
    cbn [length] in *; try lia.
  1-3: eexists; split; [reflexivity|left; reflexivity].
  all: eexists; split; [reflexivity|right; reflexivity].
Qed.

(** ** The declared length of the format chunk *)

(** C5. The reader with [expectChunkID] refuses a format chunk whose
    declared length is not 16 with the error "expected fmt chunk length
    16, got " followed by the length (the specification's
    UnsupportedFormatLength), and stores nothing.  The reader
    with [readSubchunks] has no such check: the declared length only
    bounds the payload reader, and a format chunk that declares more
    than sixteen bytes is decoded like one that declares sixteen. *)
Theorem fmt_length_checked_by_one_reader_only
    (newID3 : list byte → list byte * (option strmap * option error))
    (newID3' : list byte → list byte * (option GetterB.wav * option error))
    (l0 l1 l2 l3 n0 n1 n2 n3 : byte) (rest : list byte) (md : strmap) :
  let n := to_int32 (Uint32 n0 n1 n2 n3) in
  n ≠ 16 →
  (GetterB.readFormat (bytes "fmt " ++ [n0; n1; n2; n3] ++ rest, md)
   = ((rest, md), Err (ErrFmtChunkLength 16 n))
   ∧ Getter.NewGetter GetterB.newWav newID3'
       (riff [l0; l1; l2; l3] (bytes "fmt " ++ [n0; n1; n2; n3] ++ rest))
     = (rest, (None, Some (ErrFmtChunkLength 16 n))))
  ∧ (16 < n →
     Tags.New newID3
       (riff [l0; l1; l2; l3]
          (bytes "fmt " ++ [n0; n1; n2; n3] ++ fmt_payload 1 2 44100 176400 4 16 ++ rest))
     = (rest, (Some cd_fields, None))).
Proof.
  intros n Hn.
  assert ((16 =? n) = false) as Heqb by (apply Z.eqb_neq; congruence).
  assert (∀ md', GetterB.readFormat
            ("f" :: "m" :: "t" :: " " :: n0 :: n1 :: n2 :: n3 :: rest, md')%byte
          = ((rest, md'), Err (ErrFmtChunkLength 16 n))) as HreadFormat.
  { intros md'. unfold GetterB.readFormat, bind at 1. rewrite GetterB_expectChunkID_stream.
    change (String.eqb "fmt " _) with true. cbv iota.
    unfold bind at 1. rewrite GetterB_readFormatLength_stream. fold n.
    rewrite Heqb. reflexivity. }
  split; [split|].
  - apply HreadFormat.
  - change (riff _ _) with
      ("R" :: "I" :: "F" :: "F" :: l0 :: l1 :: l2 :: l3 :: "W" :: "A" :: "V" :: "E" ::
       "f" :: "m" :: "t" :: " " :: n0 :: n1 :: n2 :: n3 :: rest)%byte.
    rewrite NewGetter_RIFF, GetterB_newWav_stream.
    change (String.eqb "WAVE" _) with true. cbv iota.
    rewrite HreadFormat. reflexivity.
  - intros Hgt.
    exact (Tags_New_fmt newID3 l0 l1 l2 l3 n0 n1 n2 n3
             "001" "000" "002" "000" "D" "172" "000" "000"
             "016" "177" "002" "000" "004" "000" "016" "000" rest
             ltac:(fold n; lia) eq_refl).
Qed.

Lemma fmt_length_checked_by_one_reader_only_witness :
  to_int32 (Uint32 "018" "000" "000" "000") ≠ 16
  ∧ Getter.NewGetter GetterB.newWav noID3
      (riff (le32 38) (chunk "fmt " 18 (fmt_payload 1 2 44100 176400 4 16 ++ le16 0)))
    = (fmt_payload 1 2 44100 176400 4 16 ++ le16 0, (None, Some (ErrFmtChunkLength 16 18)))
  ∧ Tags.New noID3
      (riff (le32 38) (chunk "fmt " 18 (fmt_payload 1 2 44100 176400 4 16 ++ le16 0)))
    = (le16 0, (Some cd_fields, None)).
Proof.
  assert (to_int32 (Uint32 "018" "000" "000" "000") ≠ 16) as Hn
    by (vm_compute; discriminate).
  split; [exact Hn|]. split.
  - exact (proj2 (proj1 (fmt_length_checked_by_one_reader_only noID3 noID3
             "&" "000" "000" "000" "018" "000" "000" "000"
             (fmt_payload 1 2 44100 176400 4 16 ++ le16 0) ∅ Hn))).
  - exact (proj2 (fmt_length_checked_by_one_reader_only noID3 noID3
             "&" "000" "000" "000" "018" "000" "000" "000" (le16 0) ∅ Hn)
             ltac:(vm_compute; reflexivity)).
Defined.

(** A format chunk that declares fewer than sixteen bytes: the fields
    that fit are stored, the next read hits the limit, and [New] takes
    the [io.EOF] of the limited reader for the end of the chunks. *)
Lemma fmt_length_4_ends_silently
    (newID3 : list byte → list byte * (option strmap * option error))
    (l0 l1 l2 l3 : byte) (rest : list byte) :
  Tags.readSubchunks (chunk "fmt " 4 (le16 1 ++ le16 2) ++ rest, ∅)
  = ((rest, <["NumChannels" := "2"]> (<["AudioFormat" := "1"]> ∅)), Err EOF)
  ∧ Tags.New newID3 (riff [l0; l1; l2; l3] (chunk "fmt " 4 (le16 1 ++ le16 2) ++ rest))
    = (rest, (None, None)).
Proof.
  assert (Tags.readSubchunks (chunk "fmt " 4 (le16 1 ++ le16 2) ++ rest, ∅)
          = ((rest, <["NumChannels" := "2"]> (<["AudioFormat" := "1"]> ∅)), Err EOF)) as Hsub.
  { change (chunk _ _ _ ++ rest) with
      ("f" :: "m" :: "t" :: " " :: "004" :: "000" :: "000" :: "000" ::
       "001" :: "000" :: "002" :: "000" :: rest)%byte.
    rewrite Tags_readSubchunks_stream. cbv zeta.
    change (String.eqb _ "fmt ") with true. cbv iota.
    change (to_int32 _) with 4.
    unfold Tags.onData, Tags.readFormat, bind at 1.
    rewrite Tags_readAudioFormat_limited by lia.
    change (1 =? _) with true. cbv iota.
    unfold bind at 1. rewrite Tags_readInt16_limited by lia.
    reflexivity. }
  split; [exact Hsub|].
  change (riff _ _) with
    ("R" :: "I" :: "F" :: "F" :: l0 :: l1 :: l2 :: l3 :: "W" :: "A" :: "V" :: "E" ::
     (chunk "fmt " 4 (le16 1 ++ le16 2) ++ rest))%byte.
  enter_wave.
  rewrite Hsub. reflexivity.
Qed.

(** ** Errors and maps returned by [New] *)

Section NewResults.
Context {R : Type} `{Reader R}.

(** [newWav] returns the nil map with every error, and a map when
    there is no error. *)
Lemma Tags_newWav_cases (r : R) :
  (∃ r' e, Tags.newWav r = (r', (None, Some e)))
  ∨ (∃ r' md, Tags.newWav r = (r', (Some md, None))).
Proof.
  unfold Tags.newWav.
  destruct (binary_Read_int32 r) as [r1 [len|e]]; [|left; eauto].
  destruct (Tags.expectFourCC "WAVE" r1) as [r2 [[]|e]]; [|left; eauto].
  destruct (Tags.readSubchunks (r2, ∅)) as [[r3 md] [[]|e]]; [right|left]; eauto.
Qed.

End NewResults.

Lemma string_of_inj (l1 l2 : list byte) : string_of l1 = string_of l2 → l1 = l2.
Proof.
  intros Heq. apply (f_equal list_byte_of_string) in Heq.
  unfold string_of in Heq. rewrite !list_byte_of_string_of_list_byte in Heq. done.
Qed.

(** The outcomes of [New] on a stream that is not handed to the ID3
    reader. *)
Lemma New_outcomes
    (newID3 : list byte → list byte * (option strmap * option error))
    (s : list byte) :
  not_ID3 s →
  match Tags.New newID3 s with
  | (_, (None, Some _)) => True
  | (r, (Some md, None)) =>
      ∃ rest, s = bytes "RIFF" ++ rest ∧ Tags.newWav rest = (r, (Some md, None))
  | (r, (None, None)) =>
      ∃ rest, s = bytes "RIFF" ++ rest ∧ Tags.newWav rest = (r, (None, Some EOF))
  | (_, (Some _, Some _)) => False
  end.
Proof.
  intros HTAG.
  destruct s as [|b0 [|b1 [|b2 s]]]; [exact I..|].
  unfold not_ID3 in HTAG. change (take 3 _) with [b0; b1; b2] in HTAG.
  destruct (String.eqb_spec (string_of [b0; b1; b2]) "RIF") as [HRIF|HRIF];
    [|rewrite Tags_New_other by done; exact I].
  apply (string_of_inj _ (bytes "RIF")) in HRIF. injection HRIF as -> -> ->.
  destruct s as [|b3 s]; [exact I|].
  destruct (Byte.eqb b3 "F") eqn:HF;
    [|rewrite Tags_New_RIF_other by (apply Byte.eqb_false; done); exact I].
  apply Byte.byte_dec_bl in HF as ->.
  rewrite Tags_New_RIFF.
  destruct (Tags_newWav_cases s) as [(r & e & Hw)|(r & md & Hw)]; rewrite Hw.
  - destruct e; try exact I. exists s. done.
  - exists s. done.
Qed.

(** X17. What [New] hands on.  Let [New] return the map [m] and the
    error [e] on a stream that is not handed to the ID3 reader.  If
    there is an error, the map is nil.  If there is a map, there is no
    error, the stream starts with "RIFF" and the map is the one [newWav]
    returned without error: it is never a partial one.  If there is
    neither, the stream starts with "RIFF" and [newWav] failed with
    [io.EOF].  And every error of [newWav] other than [io.EOF] is the
    error that [New] returns. *)
Theorem New_error_or_complete_map
    (newID3 : list byte → list byte * (option strmap * option error))
    (s r : list byte) (m : option strmap) (e : option error) :
  not_ID3 s →
  Tags.New newID3 s = (r, (m, e)) →
  (is_Some e → m = None)
  ∧ (∀ md, m = Some md →
       e = None
       ∧ ∃ rest, s = bytes "RIFF" ++ rest ∧ Tags.newWav rest = (r, (Some md, None)))
  ∧ (m = None → e = None →
       ∃ rest, s = bytes "RIFF" ++ rest ∧ Tags.newWav rest = (r, (None, Some EOF)))
  ∧ (∀ rest r' m' err,
       s = bytes "RIFF" ++ rest →
       Tags.newWav rest = (r', (m', Some err)) → err ≠ EOF →
       r = r' ∧ m = None ∧ e = Some err).
Proof.
  intros HTAG Hres. pose proof (New_outcomes newID3 s HTAG) as Hout.
  rewrite Hres in Hout.
  split; [|split; [|split]].
  - intros [err ->]. destruct m; done.
  - intros md ->. destruct e; done.
  - intros -> ->. done.
  - intros rest r' m' err -> Hw Herr.
    change (bytes "RIFF" ++ rest) with ("R" :: "I" :: "F" :: "F" :: rest)%byte in Hres.
    rewrite Tags_New_RIFF, Hw in Hres.
    destruct err; try done; injection Hres as <- <- <-; done.
Qed.

Lemma New_error_or_complete_map_witness :
  (not_ID3 (riff (le32 36) cd_fmt_chunk)
   ∧ Tags.New noID3 (riff (le32 36) cd_fmt_chunk) = ([], (Some cd_fields, None))
   ∧ ∃ rest, riff (le32 36) cd_fmt_chunk = bytes "RIFF" ++ rest
             ∧ Tags.newWav rest = ([], (Some cd_fields, None)))
  ∧ (not_ID3 (bytes "RIFF" ++ le32 4 ++ bytes "AVI ")
     ∧ Tags.newWav (le32 4 ++ bytes "AVI ")
       = ([], (None, Some (ErrExpectedChunkID "WAVE" "AVI ")))
     ∧ Tags.New noID3 (bytes "RIFF" ++ le32 4 ++ bytes "AVI ")
       = ([], (None, Some (ErrExpectedChunkID "WAVE" "AVI ")))).
Proof.
  split.
  - assert (not_ID3 (riff (le32 36) cd_fmt_chunk)) as HTAG by discriminate.
    assert (Tags.New noID3 (riff (le32 36) cd_fmt_chunk) = ([], (Some cd_fields, None)))
      as Hres.
    { exact (Tags_New_fmt noID3 "$" "000" "000" "000" "016" "000" "000" "000"
               "001" "000" "002" "000" "D" "172" "000" "000"
               "016" "177" "002" "000" "004" "000" "016" "000" []
               ltac:(vm_compute; discriminate) eq_refl). }
    split; [exact HTAG|]. split; [exact Hres|].
    exact (proj2 (proj1 (proj2 (New_error_or_complete_map noID3 _ _ _ _ HTAG Hres))
                    cd_fields eq_refl)).
  - assert (not_ID3 (bytes "RIFF" ++ le32 4 ++ bytes "AVI ")) as HTAG by discriminate.
    assert (Tags.newWav (le32 4 ++ bytes "AVI ")
            = ([], (None, Some (ErrExpectedChunkID "WAVE" "AVI ")))) as Hw by reflexivity.
    split; [exact HTAG|]. split; [exact Hw|].
    destruct (Tags.New noID3 (bytes "RIFF" ++ le32 4 ++ bytes "AVI "))
      as [r [m e]] eqn:Hres.
    destruct (proj2 (proj2 (proj2 (New_error_or_complete_map noID3 _ _ _ _ HTAG Hres)))
                (le32 4 ++ bytes "AVI ") [] None (ErrExpectedChunkID "WAVE" "AVI ")
                eq_refl Hw ltac:(discriminate)) as (-> & -> & ->).
    reflexivity.
Defined.

(** C3. A parse that fails on a truncated chunk is not reported.  For
    every outer length: a "data" chunk that declares more bytes than the
    stream holds makes [newWav] fail with [io.EOF], and [New] returns
    neither an error nor a map; a format chunk of declared length 16 and
    tag 1 whose payload is cut after [k] < 16 bytes makes [newWav] fail
    with [io.EOF] when the cut falls at the end of a field (after 0, 2,
    4, 8, 12 or 14 bytes) and with [io.ErrUnexpectedEOF] when it falls
    inside one, and [New] returns no map in either case, the error
    [io.ErrUnexpectedEOF] in the second and no error in the first: the
    failure of the parse is swallowed. *)
Theorem New_swallows_truncation
    (newID3 : list byte → list byte * (option strmap * option error))
    (l0 l1 l2 l3 : byte) :
  (∀ (n0 n1 n2 n3 : byte) (payload : list byte),
     Z.of_nat (length payload) < Uint32 n0 n1 n2 n3 < 2 ^ 31 →
     Tags.newWav (wave [l0; l1; l2; l3] (bytes "data" ++ [n0; n1; n2; n3] ++ payload))
     = ([], (None, Some EOF))
     ∧ Tags.New newID3
         (riff [l0; l1; l2; l3] (bytes "data" ++ [n0; n1; n2; n3] ++ payload))
       = ([], (None, None)))
  ∧ (∀ (c0 c1 r0 r1 r2 r3 y0 y1 y2 y3 a0 a1 d0 d1 : byte) (k : nat),
       (k < 16)%nat →
       let payload :=
         take k (le16 1 ++ [c0; c1; r0; r1; r2; r3; y0; y1; y2; y3; a0; a1; d0; d1]) in
       Tags.newWav (wave [l0; l1; l2; l3] (chunk "fmt " 16 payload))
       = ([], (None, Some (if field_boundary k then EOF else ErrUnexpectedEOF)))
       ∧ Tags.New newID3 (riff [l0; l1; l2; l3] (chunk "fmt " 16 payload))
         = ([], (None, if field_boundary k then None else Some ErrUnexpectedEOF))).
Proof.
  split.
  - intros n0 n1 n2 n3 payload Hn.
    assert (Tags.newWav
              (wave [l0; l1; l2; l3] (bytes "data" ++ [n0; n1; n2; n3] ++ payload))
            = ([], (None, Some EOF))) as Hw.
    { change (wave _ _) with
        (l0 :: l1 :: l2 :: l3 :: "W" :: "A" :: "V" :: "E" ::
         "d" :: "a" :: "t" :: "a" :: n0 :: n1 :: n2 :: n3 :: payload)%byte.
      rewrite Tags_newWav_stream.
      change (String.eqb "WAVE" _) with true. cbv iota.
      rewrite Tags_readSubchunks_stream. cbv zeta.
      change (String.eqb _ "fmt ") with false.
      change (String.eqb _ "data") with true. cbv iota.
      rewrite CopyN_Discard_stream_short; [reflexivity|].
      unfold to_int32. destruct (Z.ltb_spec (Uint32 n0 n1 n2 n3) (2 ^ 31)); lia. }
    split; [exact Hw|].
    change (riff [l0; l1; l2; l3] ?c) with
      ("R" :: "I" :: "F" :: "F" :: wave [l0; l1; l2; l3] c)%byte.
    rewrite Tags_New_RIFF, Hw. reflexivity.
  - intros c0 c1 r0 r1 r2 r3 y0 y1 y2 y3 a0 a1 d0 d1 k Hk payload. subst payload.
    do 16 (destruct k as [|k]; [split; vm_compute; reflexivity|]).
    lia.
Qed.

Lemma New_swallows_truncation_witness :
  Tags.newWav (wave (le32 12) (chunk "data" 1000 (bytes "abc"))) = ([], (None, Some EOF))
  ∧ Tags.New noID3 (riff (le32 12) (chunk "data" 1000 (bytes "abc"))) = ([], (None, None))
  ∧ Tags.newWav (wave (le32 16) (chunk "fmt " 16 (le16 1 ++ le16 2)))
    = ([], (None, Some EOF))
  ∧ Tags.New noID3 (riff (le32 16) (chunk "fmt " 16 (le16 1 ++ le16 2)))
    = ([], (None, None)).
Proof.
  pose proof (New_swallows_truncation noID3 "012" "000" "000" "000") as [Hdata _].
  pose proof (New_swallows_truncation noID3 "016" "000" "000" "000") as [_ Hfmt].
  destruct (Hdata "232"%byte "003"%byte "000"%byte "000"%byte (bytes "abc")
              ltac:(vm_compute; split; reflexivity)) as [Hw Hn].
  destruct (Hfmt "002"%byte "000"%byte "000"%byte "000"%byte "000"%byte "000"%byte
              "000"%byte "000"%byte "000"%byte "000"%byte "000"%byte "000"%byte
              "000"%byte "000"%byte 4%nat ltac:(lia)) as [Hw' Hn'].
  split; [exact Hw|]. split; [exact Hn|]. split; [exact Hw'|exact Hn'].
Defined.

(** ** The "AudioFormat" field *)

Section Preservation.
Context {R : Type} `{Reader R}.
Variable P : strmap → Prop.

Lemma preserves_ret {A} (a : A) : preserves (R := R) P (ret a).
Proof. intros r md Hmd. exact Hmd. Qed.

Lemma preserves_fail {A} e : preserves (R := R) (A := A) P (fail e).
Proof. intros r md Hmd. exact Hmd. Qed.

Lemma preserves_onReader {A} (m : M R A) : preserves P (onReader m).
Proof. intros r md Hmd. unfold onReader. destruct (m r). exact Hmd. Qed.

Lemma preserves_bind {A B} (m : M (R * strmap) A) (k : A → M (R * strmap) B) :
  preserves P m → (∀ a, preserves P (k a)) → preserves P (bind m k).
Proof.
  intros Hm Hk r md Hmd. unfold bind. specialize (Hm r md Hmd).
  destruct (m (r, md)) as [[r' md'] [a|e]]; [|exact Hm].
  apply Hk. exact Hm.
Qed.

Lemma preserves_setProp prop v :
  (∀ md, P md → P (<[prop := v]> md)) → preserves (R := R) P (setProp prop v).
Proof. intros Hins r md Hmd. apply Hins, Hmd. Qed.

End Preservation.

Lemma preserves_onData {R A} `{Reader R} (P : strmap → Prop) (data : LimitedReader R)
    (m : M (LimitedReader R * strmap) A) :
  preserves P m → preserves P (Tags.onData data m).
Proof.
  intros Hm r md Hmd. unfold Tags.onData. specialize (Hm data md Hmd).
  destruct (m (data, md)) as [[data' md'] res]. exact Hm.
Qed.

Section AudioFormat.
Context {R : Type} `{Reader R}.

Lemma AudioFormat_is_1_empty : AudioFormat_is_1 ∅.
Proof. intros v Hv. rewrite lookup_empty in Hv. discriminate. Qed.

Lemma AudioFormat_is_1_insert_other prop v md :
  prop ≠ "AudioFormat" → AudioFormat_is_1 md → AudioFormat_is_1 (<[prop := v]> md).
Proof. intros Hne Hmd w Hw. rewrite lookup_insert_ne in Hw by done. apply Hmd, Hw. Qed.

Lemma AudioFormat_is_1_insert_1 md :
  AudioFormat_is_1 (<["AudioFormat" := FormatInt 1]> md).
Proof. intros w Hw. rewrite lookup_insert_eq in Hw. injection Hw as <-. reflexivity. Qed.

Lemma Tags_readAudioFormat_preserves :
  preserves (R := R) AudioFormat_is_1 Tags.readAudioFormat.
Proof.
  apply preserves_bind; [apply preserves_onReader|]. intros audioFormat.
  destruct (Z.eqb_spec 1 audioFormat) as [<-|Hne]; cbn [negb].
  - apply preserves_setProp. intros md _. apply AudioFormat_is_1_insert_1.
  - apply preserves_fail.
Qed.

Lemma Tags_readInt16_preserves prop :
  prop ≠ "AudioFormat" → preserves (R := R) AudioFormat_is_1 (Tags.readInt16 prop).
Proof.
  intros Hne. apply preserves_bind; [apply preserves_onReader|]. intros val.
  apply preserves_setProp. intros md. apply AudioFormat_is_1_insert_other, Hne.
Qed.

Lemma Tags_readInt32_preserves prop :
  prop ≠ "AudioFormat" → preserves (R := R) AudioFormat_is_1 (Tags.readInt32 prop).
Proof.
  intros Hne. apply preserves_bind; [apply preserves_onReader|]. intros val.
  apply preserves_setProp. intros md. apply AudioFormat_is_1_insert_other, Hne.
Qed.

Lemma Tags_readFormat_preserves : preserves (R := R) AudioFormat_is_1 Tags.readFormat.
Proof.
  unfold Tags.readFormat.
  repeat (apply preserves_bind; [|intros _]);
    first [ apply Tags_readAudioFormat_preserves
          | apply Tags_readInt16_preserves; discriminate
          | apply Tags_readInt32_preserves; discriminate
          | apply preserves_ret ].
Qed.

Lemma GetterB_readFormat_preserves : preserves (R := R) AudioFormat_is_1 GetterB.readFormat.
Proof.
  assert (preserves (R := R) AudioFormat_is_1 GetterB.readAudioFormat) as HAF.
  { apply preserves_bind; [apply preserves_onReader|]. intros audioFormat.
    destruct (Z.eqb_spec 1 audioFormat) as [<-|Hne]; cbn [negb].
    - apply preserves_setProp. intros md _. apply AudioFormat_is_1_insert_1.
    - apply preserves_fail. }
  assert (∀ prop, prop ≠ "AudioFormat" →
            preserves (R := R) AudioFormat_is_1 (GetterB.readInt16 prop)) as H16.
  { intros prop Hne. apply preserves_bind; [apply preserves_onReader|]. intros val.
    apply preserves_setProp. intros md. apply AudioFormat_is_1_insert_other, Hne. }
  assert (∀ prop, prop ≠ "AudioFormat" →
            preserves (R := R) AudioFormat_is_1 (GetterB.readInt32 prop)) as H32.
  { intros prop Hne. apply preserves_bind; [apply preserves_onReader|]. intros val.
    apply preserves_setProp. intros md. apply AudioFormat_is_1_insert_other, Hne. }
  assert (∀ expected, preserves (R := R) AudioFormat_is_1 (GetterB.expectChunkID expected))
    as HID.
  { intros expected. apply preserves_bind; [apply preserves_onReader|]. intros chunkID.
    destruct (negb _); [apply preserves_fail|apply preserves_ret]. }
  assert (preserves (R := R) AudioFormat_is_1 GetterB.readFormatLength) as HLen.
  { apply preserves_bind; [apply preserves_onReader|]. intros length.
    destruct (negb _); [apply preserves_fail|apply preserves_ret]. }
  unfold GetterB.readFormat.
  repeat (apply preserves_bind; [|intros _]);
    first [ apply HID | apply HLen | apply HAF
          | apply H16; discriminate | apply H32; discriminate | apply preserves_ret ].
Qed.

Lemma GetterA_readFormat_preserves : preserves (R := R) AudioFormat_is_1 GetterA.readFormat.
Proof.
  assert (preserves (R := R) AudioFormat_is_1 GetterA.readAudioFormat) as HAF.
  { apply preserves_bind; [apply preserves_onReader|]. intros audioFormat.
    destruct (Z.eqb_spec 1 audioFormat) as [<-|Hne]; cbn [negb].
    - apply preserves_setProp. intros md _. apply AudioFormat_is_1_insert_1.
    - apply preserves_fail. }
  assert (preserves (R := R) AudioFormat_is_1 GetterA.readNumChannels) as HNC.
  { apply preserves_bind; [apply preserves_onReader|]. intros val.
    apply preserves_setProp. intros md. apply AudioFormat_is_1_insert_other. discriminate. }
  assert (preserves (R := R) AudioFormat_is_1 GetterA.readFormatLength) as HLen.
  { apply preserves_bind; [apply preserves_onReader|]. intros length.
    destruct (negb _); [apply preserves_fail|apply preserves_ret]. }
  unfold GetterA.readFormat.
  repeat (apply preserves_bind; [|intros _]);
    first [ apply preserves_onReader | apply HLen | apply HAF | apply HNC
          | apply preserves_ret ].
Qed.

End AudioFormat.

Lemma Tags_readSubchunks_preserves {R} `{Reader R} :
  preserves (R := R) AudioFormat_is_1 Tags.readSubchunks.
Proof.
  unfold Tags.readSubchunks.
  apply preserves_bind; [apply preserves_onReader|]. intros [[id length] data].
  repeat (destruct (String.eqb id _));
    first [ apply preserves_onData, Tags_readFormat_preserves
          | apply preserves_onReader
          | apply preserves_onData, preserves_onReader
          | apply preserves_onData, preserves_ret
          | apply preserves_fail ].
Qed.

(** [NewGetter] returns a [wav] only from [newWav]. *)
Lemma NewGetter_outcomes {wav}
    (newWav newID3 : list byte → list byte * (option wav * option error))
    (s r : list byte) (w : wav) (e : option error) :
  not_ID3 s →
  Getter.NewGetter newWav newID3 s = (r, (Some w, e)) →
  ∃ rest, s = bytes "RIFF" ++ rest ∧ newWav rest = (r, (Some w, e)).
Proof.
  intros HTAG Hres.
  destruct s as [|b0 [|b1 [|b2 s]]]; [discriminate..|].
  unfold not_ID3 in HTAG. change (take 3 _) with [b0; b1; b2] in HTAG.
  destruct (String.eqb_spec (string_of [b0; b1; b2]) "RIF") as [HRIF|HRIF];
    [|rewrite NewGetter_other in Hres by done; discriminate].
  apply (string_of_inj _ (bytes "RIF")) in HRIF. injection HRIF as -> -> ->.
  destruct s as [|b3 s]; [discriminate|].
  destruct (Byte.eqb b3 "F") eqn:HF;
    [|rewrite NewGetter_RIF_other in Hres by (apply Byte.eqb_false; done); discriminate].
  apply Byte.byte_dec_bl in HF as ->.
  rewrite NewGetter_RIFF in Hres. exists s. done.
Qed.

Section NewWavMaps.
Context {R : Type} `{Reader R}.

Lemma Tags_newWav_AudioFormat (r r' : R) md e :
  Tags.newWav r = (r', (Some md, e)) → AudioFormat_is_1 md.
Proof.
  unfold Tags.newWav.
  destruct (binary_Read_int32 r) as [r1 [len|e1]]; [|discriminate].
  destruct (Tags.expectFourCC "WAVE" r1) as [r2 [[]|e2]]; [|discriminate].
  pose proof (Tags_readSubchunks_preserves r2 ∅ AudioFormat_is_1_empty) as Hinv.
  destruct (Tags.readSubchunks (r2, ∅)) as [[r3 md'] [[]|e3]]; [|discriminate].
  intros [= <- <- <-]. exact Hinv.
Qed.

Lemma GetterB_newWav_AudioFormat (r r' : R) w e :
  GetterB.newWav r = (r', (Some w, e)) → AudioFormat_is_1 (GetterB.store w).
Proof.
  unfold GetterB.newWav.
  destruct (binary_Read_int32 r) as [r1 [len|e1]]; [|discriminate].
  assert (preserves (R := R) AudioFormat_is_1
            (bind (GetterB.expectChunkID "WAVE") (λ _, GetterB.readFormat))) as Hpres.
  { apply preserves_bind; [|intros _; apply GetterB_readFormat_preserves].
    apply preserves_bind; [apply preserves_onReader|]. intros chunkID.
    destruct (negb _); [apply preserves_fail|apply preserves_ret]. }
  specialize (Hpres r1 ∅ AudioFormat_is_1_empty).
  destruct (bind _ _ (r1, ∅)) as [[r2 md'] [[]|e2]]; [|discriminate].
  intros [= <- <- <-]. exact Hpres.
Qed.

Lemma GetterA_newWav_AudioFormat (r r' : R) w e :
  GetterA.newWav r = (r', (Some w, e)) → AudioFormat_is_1 (GetterA.store w).
Proof.
  unfold GetterA.newWav.
  destruct (binary_Read_int32 r) as [r1 [len|e1]]; [|discriminate].
  assert (preserves (R := R) AudioFormat_is_1 GetterA.sniffFormat) as Hpres
    by apply preserves_onReader.
  specialize (Hpres r1 ∅ AudioFormat_is_1_empty).
  destruct (GetterA.sniffFormat (r1, ∅)) as [[r2 md'] [[]|e2]]; [|discriminate].
  intros [= <- <- <-]. exact Hpres.
Qed.

End NewWavMaps.

(** C10. In every map produced by a parse, "AudioFormat", when present,
    is "1": the only assignment to that key is the one in
    [readAudioFormat], made after the tag has been compared with 1. *)
Theorem AudioFormat_present_is_1 (md : strmap) :
  parsed md → AudioFormat_is_1 md.
Proof.
  intros [R HR r r' e Hw|R HR r r' w e Hw <-|R HR r r' w e Hw <-|R HR r r' res Hf
         |newID3 s r e HTAG Hn|newID3 s r w e HTAG Hn <-|newID3 s r w e HTAG Hn <-].
  - exact (Tags_newWav_AudioFormat _ _ _ _ Hw).
  - exact (GetterB_newWav_AudioFormat _ _ _ _ Hw).
  - exact (GetterA_newWav_AudioFormat _ _ _ _ Hw).
  - pose proof (GetterA_readFormat_preserves r ∅ AudioFormat_is_1_empty) as Hinv.
    rewrite Hf in Hinv. exact Hinv.
  - pose proof (New_outcomes newID3 s HTAG) as Hout. rewrite Hn in Hout.
    destruct e; [done|]. destruct Hout as (rest & _ & Hw).
    exact (Tags_newWav_AudioFormat _ _ _ _ Hw).
  - destruct (NewGetter_outcomes _ _ _ _ _ _ HTAG Hn) as (rest & _ & Hw).
    exact (GetterB_newWav_AudioFormat _ _ _ _ Hw).
  - destruct (NewGetter_outcomes _ _ _ _ _ _ HTAG Hn) as (rest & _ & Hw).
    exact (GetterA_newWav_AudioFormat _ _ _ _ Hw).
Qed.

Lemma AudioFormat_present_is_1_witness :
  parsed cd_fields ∧ AudioFormat_is_1 cd_fields.
Proof.
  assert (parsed cd_fields) as Hparsed.
  { apply (parsed_New cd_fields noID3 (riff (le32 36) cd_fmt_chunk) [] None);
      [discriminate|].
    exact (Tags_New_fmt noID3 "$" "000" "000" "000" "016" "000" "000" "000"
             "001" "000" "002" "000" "D" "172" "000" "000"
             "016" "177" "002" "000" "004" "000" "016" "000" []
             ltac:(vm_compute; discriminate) eq_refl). }
  split; [exact Hparsed|].
  exact (AudioFormat_present_is_1 cd_fields Hparsed).
Defined.

(** * Further properties *)

(** ** Decoding what was encoded *)

Section Encoding.

Lemma Uint16_le16_mod v : Uint16 (byte_of v) (byte_of (v / 2 ^ 8)) = v mod 2 ^ 16.
Proof.
  rewrite Uint16_add, !byte_val_byte_of. change 256 with (2 ^ 8).
  change (2 ^ 16) with (2 ^ 8 * 2 ^ 8). rewrite Z.rem_mul_r by lia. lia.
Qed.

Lemma Uint32_le32_mod v :
  Uint32 (byte_of v) (byte_of (v / 2 ^ 8)) (byte_of (v / 2 ^ 16)) (byte_of (v / 2 ^ 24))
  = v mod 2 ^ 32.
Proof.
  rewrite Uint32_add, !byte_val_byte_of. change 256 with (2 ^ 8).
  change (2 ^ 32) with (2 ^ 8 * (2 ^ 8 * (2 ^ 8 * 2 ^ 8))).
  rewrite !Z.rem_mul_r by lia.
  replace (v / 2 ^ 8 / 2 ^ 8) with (v / 2 ^ 16) by (rewrite Z.div_div by lia; reflexivity).
  replace (v / 2 ^ 16 / 2 ^ 8) with (v / 2 ^ 24) by (rewrite Z.div_div by lia; reflexivity).
  lia.
Qed.

Lemma to_int16_mod v : is_int16 v → to_int16 (v mod 2 ^ 16) = v.
Proof.
  unfold is_int16, to_int16. intros Hv.
  destruct (Z.lt_ge_cases v 0).
  - replace (v mod 2 ^ 16) with (v + 2 ^ 16)
      by (apply Z.mod_unique with (-1); lia).
    destruct (Z.ltb_spec (v + 2 ^ 16) (2 ^ 15)); lia.
  - rewrite Z.mod_small by lia. destruct (Z.ltb_spec v (2 ^ 15)); lia.
Qed.

Lemma to_int32_mod v : is_int32 v → to_int32 (v mod 2 ^ 32) = v.
Proof.
  unfold is_int32, to_int32. intros Hv.
  destruct (Z.lt_ge_cases v 0).
  - replace (v mod 2 ^ 32) with (v + 2 ^ 32)
      by (apply Z.mod_unique with (-1); lia).
    destruct (Z.ltb_spec (v + 2 ^ 32) (2 ^ 31)); lia.
  - rewrite Z.mod_small by lia. destruct (Z.ltb_spec v (2 ^ 31)); lia.
Qed.

Lemma to_int16_is_int16 b0 b1 : is_int16 (to_int16 (Uint16 b0 b1)).
Proof.
  pose proof (Uint16_bounds b0 b1). unfold is_int16, to_int16.
  destruct (Z.ltb_spec (Uint16 b0 b1) (2 ^ 15)); lia.
Qed.

Lemma to_int32_is_int32 b0 b1 b2 b3 : is_int32 (to_int32 (Uint32 b0 b1 b2 b3)).
Proof.
  pose proof (Uint32_bounds b0 b1 b2 b3). unfold is_int32, to_int32.
  destruct (Z.ltb_spec (Uint32 b0 b1 b2 b3) (2 ^ 31)); lia.
Qed.

End Encoding.

(** X1. Whatever five values of the types of the fields a format chunk
    of declared length 16 and tag 1 encodes in little-endian two's
    complement, [New] and [NewGetter] return them as their decimal
    numerals, negative ones with their sign, under the six keys, and
    leave the reader right after the chunk. *)
Theorem fmt_chunk_decodes_what_was_encoded
    (newID3 : list byte → list byte * (option strmap * option error))
    (newID3' : list byte → list byte * (option GetterB.wav * option error))
    (l0 l1 l2 l3 : byte) (channels rate byterate align depth : Z) (rest : list byte) :
  is_int16 channels → is_int32 rate → is_int32 byterate →
  is_int16 align → is_int16 depth →
  let s := riff [l0; l1; l2; l3]
             (chunk "fmt " 16 (fmt_payload 1 channels rate byterate align depth) ++ rest) in
  let fields := with_fmt_fields 1 channels rate byterate align depth ∅ in
  Tags.New newID3 s = (rest, (Some fields, None))
  ∧ Getter.NewGetter GetterB.newWav newID3' s
    = (rest, (Some {| GetterB.length := to_int32 (Uint32 l0 l1 l2 l3);
                      GetterB.store := fields |}, None)).
Proof.
  intros Hc Hr Hy Ha Hd s fields. subst s fields.
  change (riff _ _) with
    (riff [l0; l1; l2; l3]
       (bytes "fmt " ++ ["016"; "000"; "000"; "000"]%byte ++
        ["001"%byte; "000"%byte;
         byte_of channels; byte_of (channels / 2 ^ 8);
         byte_of rate; byte_of (rate / 2 ^ 8); byte_of (rate / 2 ^ 16);
         byte_of (rate / 2 ^ 24);
         byte_of byterate; byte_of (byterate / 2 ^ 8); byte_of (byterate / 2 ^ 16);
         byte_of (byterate / 2 ^ 24);
         byte_of align; byte_of (align / 2 ^ 8);
         byte_of depth; byte_of (depth / 2 ^ 8)] ++ rest)).
  rewrite Tags_New_fmt, NewGetter_fmt by (vm_compute; first [reflexivity|discriminate]).
  rewrite !Uint16_le16_mod, !Uint32_le32_mod.
  rewrite !to_int16_mod, !to_int32_mod by done.
  split; reflexivity.
Qed.

Lemma fmt_chunk_decodes_what_was_encoded_witness :
  Tags.New noID3
    (riff (le32 36) (chunk "fmt " 16 (fmt_payload 1 (-1) 96000 (-2147483648) 6 24)))
  = ([], (Some (with_fmt_fields 1 (-1) 96000 (-2147483648) 6 24 ∅), None))
  ∧ with_fmt_fields 1 (-1) 96000 (-2147483648) 6 24 ∅ !! "NumChannels" = Some "-1".
Proof.
  split.
  - exact (proj1 (fmt_chunk_decodes_what_was_encoded noID3 noID3
             "$" "000" "000" "000" (-1) 96000 (-2147483648) 6 24 []
             ltac:(unfold is_int16; lia) ltac:(unfold is_int32; lia)
             ltac:(unfold is_int32; lia) ltac:(unfold is_int16; lia)
             ltac:(unfold is_int16; lia))).
  - unfold with_fmt_fields. rewrite !lookup_insert_ne by discriminate.
    rewrite lookup_insert_eq. reflexivity.
Defined.

(** ** The map of a parse that succeeds *)

Section SuccessfulParse.
Context {R : Type} `{Reader R}.

Lemma binary_Read_int16_ok (r r' : R) v :
  binary_Read_int16 r = (r', Ok v) → is_int16 v.
Proof.
  unfold binary_Read_int16.
  destruct (ReadFull r 2) as [r1 [bs oe]].
  destruct bs as [|b0 [|b1 [|b2 bs]]], oe; try discriminate.
  intros [= _ <-]. apply to_int16_is_int16.
Qed.

Lemma binary_Read_int32_ok (r r' : R) v :
  binary_Read_int32 r = (r', Ok v) → is_int32 v.
Proof.
  unfold binary_Read_int32.
  destruct (ReadFull r 4) as [r1 [bs oe]].
  destruct bs as [|b0 [|b1 [|b2 [|b3 [|b4 bs]]]]], oe; try discriminate.
  intros [= _ <-]. apply to_int32_is_int32.
Qed.

Lemma bind_ok {S A B} (m : M S A) (k : A → M S B) s s' b :
  bind m k s = (s', Ok b) → ∃ s1 a, m s = (s1, Ok a) ∧ k a s1 = (s', Ok b).
Proof.
  unfold bind. destruct (m s) as [s1 [a|e]]; [|discriminate]. eauto.
Qed.

Lemma onReader_ok {A} (m : M R A) r md r' md' a :
  onReader m (r, md) = ((r', md'), Ok a) → m r = (r', Ok a) ∧ md' = md.
Proof.
  unfold onReader. destruct (m r) as [r1 res]. intros [= <- <- <-]. done.
Qed.

Lemma Tags_readAudioFormat_ok r md r' md' u :
  Tags.readAudioFormat (r, md) = ((r', md'), Ok u) →
  md' = <["AudioFormat" := FormatInt 1]> md.
Proof.
  intros Hok. apply bind_ok in Hok as ([r1 md1] & v & Hread & Hk).
  apply onReader_ok in Hread as [_ ->].
  revert Hk. destruct (Z.eqb_spec 1 v) as [<-|Hne]; [|discriminate].
  intros [= <- <-]. reflexivity.
Qed.

Lemma Tags_readInt16_ok prop r md r' md' u :
  Tags.readInt16 prop (r, md) = ((r', md'), Ok u) →
  ∃ v, is_int16 v ∧ md' = <[prop := FormatInt v]> md.
Proof.
  intros Hok. apply bind_ok in Hok as ([r1 md1] & v & Hread & Hk).
  apply onReader_ok in Hread as [Hread ->].
  injection Hk as <- <-. exists v. split; [|reflexivity].
  exact (binary_Read_int16_ok _ _ _ Hread).
Qed.

Lemma Tags_readInt32_ok prop r md r' md' u :
  Tags.readInt32 prop (r, md) = ((r', md'), Ok u) →
  ∃ v, is_int32 v ∧ md' = <[prop := FormatInt v]> md.
Proof.
  intros Hok. apply bind_ok in Hok as ([r1 md1] & v & Hread & Hk).
  apply onReader_ok in Hread as [Hread ->].
  injection Hk as <- <-. exists v. split; [|reflexivity].
  exact (binary_Read_int32_ok _ _ _ Hread).
Qed.

Lemma Tags_readFormat_ok r md r' md' u :
  Tags.readFormat (r, md) = ((r', md'), Ok u) →
  ∃ channels rate byterate align depth,
    is_int16 channels ∧ is_int32 rate ∧ is_int32 byterate
    ∧ is_int16 align ∧ is_int16 depth
    ∧ md' = with_fmt_fields 1 channels rate byterate align depth md.
Proof.
  intros Hok. unfold Tags.readFormat in Hok.
  apply bind_ok in Hok as ([r1 md1] & [] & H1 & Hok).
  apply bind_ok in Hok as ([r2 md2] & [] & H2 & Hok).
  apply bind_ok in Hok as ([r3 md3] & [] & H3 & Hok).
  apply bind_ok in Hok as ([r4 md4] & [] & H4 & Hok).
  apply bind_ok in Hok as ([r5 md5] & [] & H5 & Hok).
  apply bind_ok in Hok as ([r6 md6] & [] & H6 & Hok).
  injection Hok as <- <-.
  apply Tags_readAudioFormat_ok in H1 as ->.
  apply Tags_readInt16_ok in H2 as (c & Hc & ->).
  apply Tags_readInt32_ok in H3 as (ra & Hra & ->).
  apply Tags_readInt32_ok in H4 as (y & Hy & ->).
  apply Tags_readInt16_ok in H5 as (a & Ha & ->).
  apply Tags_readInt16_ok in H6 as (d & Hd & ->).
  exists c, ra, y, a, d. done.
Qed.

Lemma GetterB_readFormat_ok r md r' md' u :
  GetterB.readFormat (r, md) = ((r', md'), Ok u) →
  ∃ channels rate byterate align depth,
    is_int16 channels ∧ is_int32 rate ∧ is_int32 byterate
    ∧ is_int16 align ∧ is_int16 depth
    ∧ md' = with_fmt_fields 1 channels rate byterate align depth md.
Proof.
  intros Hok. unfold GetterB.readFormat in Hok.
  apply bind_ok in Hok as ([r0 md0] & [] & H0 & Hok).
  apply bind_ok in Hok as ([r0' md0'] & [] & H0' & Hok).
  apply bind_ok in Hok as ([r1 md1] & [] & H1 & Hok).
  apply bind_ok in Hok as ([r2 md2] & [] & H2 & Hok).
  apply bind_ok in Hok as ([r3 md3] & [] & H3 & Hok).
  apply bind_ok in Hok as ([r4 md4] & [] & H4 & Hok).
  apply bind_ok in Hok as ([r5 md5] & [] & H5 & Hok).
  apply bind_ok in Hok as ([r6 md6] & [] & H6 & Hok).
  injection Hok as <- <-.
  assert (md0 = md) as ->.
  { apply bind_ok in H0 as ([ra mda] & bs & Hid & Hk).
    unfold GetterB.readChunkID in Hid. apply onReader_ok in Hid as [_ ->].
    destruct (negb _); [discriminate|]. injection Hk as _ <-. reflexivity. }
  assert (md0' = md) as ->.
  { apply bind_ok in H0' as ([ra mda] & v & Hlen & Hk).
    apply onReader_ok in Hlen as [_ ->].
    destruct (negb _); [discriminate|]. injection Hk as _ <-. reflexivity. }
  assert (md1 = <["AudioFormat" := FormatInt 1]> md) as ->.
  { apply bind_ok in H1 as ([ra mda] & v & Hread & Hk).
    apply onReader_ok in Hread as [_ ->].
    revert Hk. destruct (Z.eqb_spec 1 v) as [<-|Hne]; [|discriminate].
    intros [= _ <-]. reflexivity. }
  assert (∀ prop ra mda rb mdb,
            GetterB.readInt16 prop (ra, mda) = ((rb, mdb), Ok tt) →
            ∃ v, is_int16 v ∧ mdb = <[prop := FormatInt v]> mda) as H16.
  { intros prop ra mda rb mdb Hk.
    apply bind_ok in Hk as ([rc mdc] & v & Hread & Hk).
    apply onReader_ok in Hread as [Hread ->]. injection Hk as _ <-.
    exists v. split; [exact (binary_Read_int16_ok _ _ _ Hread)|reflexivity]. }
  assert (∀ prop ra mda rb mdb,
            GetterB.readInt32 prop (ra, mda) = ((rb, mdb), Ok tt) →
            ∃ v, is_int32 v ∧ mdb = <[prop := FormatInt v]> mda) as H32.
  { intros prop ra mda rb mdb Hk.
    apply bind_ok in Hk as ([rc mdc] & v & Hread & Hk).
    apply onReader_ok in Hread as [Hread ->]. injection Hk as _ <-.
    exists v. split; [exact (binary_Read_int32_ok _ _ _ Hread)|reflexivity]. }
  apply H16 in H2 as (c & Hc & ->).
  apply H32 in H3 as (ra & Hra & ->).
  apply H32 in H4 as (y & Hy & ->).
  apply H16 in H5 as (a & Ha & ->).
  apply H16 in H6 as (d & Hd & ->).
  exists c, ra, y, a, d. done.
Qed.

End SuccessfulParse.

Lemma dom_with_fmt_fields tag c r y a d :
  dom (with_fmt_fields tag c r y a d ∅) = fmt_keys.
Proof.
  unfold with_fmt_fields, fmt_keys. rewrite !dom_insert_L, dom_empty_L. set_solver.
Qed.

Lemma Tags_onData_ok {R A} `{Reader R} (data : LimitedReader R)
    (m : M (LimitedReader R * strmap) A) r md r' md' a :
  Tags.onData data m (r, md) = ((r', md'), Ok a) →
  ∃ data', m (data, md) = ((data', md'), Ok a).
Proof.
  unfold Tags.onData. destruct (m (data, md)) as [[data' md1] res].
  intros [= _ <- <-]. eauto.
Qed.

(** X2. A map that [newWav] of the reader with [readSubchunks] returns,
    and so a map that [New] returns on a stream that is not handed to
    the ID3 reader, comes without error, and is either empty or holds
    all six fields of a format chunk, with "AudioFormat" equal to "1"
    and the other five the numerals of values of their types.  This
    holds over every reader. *)
Theorem Tags_map_is_empty_or_complete {R : Type} `{Reader R}
    (newID3 : list byte → list byte * (option strmap * option error))
    (md : strmap) (e : option error) :
  (∃ r r' : R, Tags.newWav r = (r', (Some md, e)))
  ∨ (∃ s r : list byte, not_ID3 s ∧ Tags.New newID3 s = (r, (Some md, e))) →
  e = None
  ∧ (md = ∅ ∨ fmt_map md)
  ∧ (dom md = ∅ ∨ dom md = fmt_keys).
Proof.
  assert (∀ R' (H' : Reader R') (r r' : R') e',
            Tags.newWav r = (r', (Some md, e')) → e' = None ∧ (md = ∅ ∨ fmt_map md)) as Hw.
  { intros R' H' r r' e'. unfold Tags.newWav.
    destruct (binary_Read_int32 r) as [r1 [len|e1]]; [|discriminate].
    destruct (Tags.expectFourCC "WAVE" r1) as [r2 [[]|e2]]; [|discriminate].
    destruct (Tags.readSubchunks (r2, ∅)) as [[r3 md'] [[]|e3]] eqn:Hsub; [|discriminate].
    cbn. intros [= <- <- <-]. split; [reflexivity|].
    unfold Tags.readSubchunks in Hsub.
    apply bind_ok in Hsub as ([r4 md4] & [[id length] data] & Hc & Hk).
    apply onReader_ok in Hc as [_ ->].
    destruct (String.eqb id "fmt ").
    { apply Tags_onData_ok in Hk as (data' & Hk).
      apply Tags_readFormat_ok in Hk. right. exact Hk. }
    left. destruct (String.eqb id "data").
    { unfold onReader in Hk. destruct (CopyN_Discard r4 length) as [r5 [w [e5|]]];
        [discriminate|]. congruence. }
    destruct (String.eqb id "LIST").
    { apply Tags_onData_ok in Hk as (data' & Hk).
      apply onReader_ok in Hk as [_ ->]. reflexivity. }
    destruct (String.eqb id "INFO"); [|discriminate].
    apply Tags_onData_ok in Hk as (data' & Hk). unfold Tags.readInfo, ret in Hk.
    congruence. }
  intros Hmd.
  assert (e = None ∧ (md = ∅ ∨ fmt_map md)) as [He Hshape].
  { destruct Hmd as [(r & r' & Hr)|(s & r & HTAG & Hn)];
      [exact (Hw _ _ _ _ _ Hr)|].
    pose proof (New_outcomes newID3 s HTAG) as Hout. rewrite Hn in Hout.
    destruct e; [done|]. destruct Hout as (rest & _ & Hrest).
    split; [reflexivity|]. exact (proj2 (Hw _ _ _ _ _ Hrest)). }
  split; [exact He|]. split; [exact Hshape|].
  destruct Hshape as [->|(c & ra & y & a & d & _ & _ & _ & _ & _ & ->)].
  - left. apply dom_empty_L.
  - right. apply dom_with_fmt_fields.
Qed.

Lemma Tags_map_is_empty_or_complete_witness :
  @None error = None
  ∧ (cd_fields = ∅ ∨ fmt_map cd_fields)
  ∧ (dom cd_fields = ∅ ∨ dom cd_fields = fmt_keys).
Proof.
  apply (Tags_map_is_empty_or_complete (R := list byte) noID3 cd_fields None).
  right. exists (riff (le32 36) cd_fmt_chunk), []. split; [discriminate|].
  exact (Tags_New_fmt noID3 "$" "000" "000" "000" "016" "000" "000" "000"
           "001" "000" "002" "000" "D" "172" "000" "000"
           "016" "177" "002" "000" "004" "000" "016" "000" []
           ltac:(vm_compute; discriminate) eq_refl).
Defined.

(** X3. [newWav] of the reader with [expectChunkID] returns a [Getter]
    exactly when it returns no error, and the map of that [Getter]
    always holds all six fields, "AudioFormat" being "1": [Get] answers
    each of the six keys without error and every other key with the
    error "key does not exist".  This holds over every reader. *)
Theorem GetterB_getter_is_complete {R : Type} `{Reader R} (r r' : R)
    (w : option GetterB.wav) (e : option error) :
  GetterB.newWav r = (r', (w, e)) →
  (is_Some w ↔ e = None)
  ∧ ∀ g, w = Some g →
      fmt_map (GetterB.store g)
      ∧ GetterB.Get g "AudioFormat" = ("1", None)
      ∧ (∀ key, key ∈ fmt_keys → ∃ v, GetterB.Get g key = (v, None))
      ∧ (∀ key, key ∉ fmt_keys →
           GetterB.Get g key = ("", Some (ErrKeyDoesNotExist key))).
Proof.
  unfold GetterB.newWav.
  destruct (binary_Read_int32 r) as [r1 [len|e1]];
    [|intros [= <- <- <-]; split; [split; [intros [? ?]|]; done|done]].
  destruct (bind _ _ (r1, ∅)) as [[r2 md] [[]|e2]] eqn:Hrun;
    [|intros [= <- <- <-]; split; [split; [intros [? ?]|]; done|done]].
  intros [= <- <- <-]. split; [split; eauto|].
  intros g [= <-]. cbn [GetterB.store].
  apply bind_ok in Hrun as ([r3 md3] & [] & Hid & Hfmt).
  assert (md3 = ∅) as ->.
  { apply bind_ok in Hid as ([ra mda] & bs & Hid & Hk).
    unfold GetterB.readChunkID in Hid. apply onReader_ok in Hid as [_ ->].
    destruct (negb _); [discriminate|]. injection Hk as _ <-. reflexivity. }
  apply GetterB_readFormat_ok in Hfmt as Hmap.
  split; [exact Hmap|].
  destruct Hmap as (c & ra & y & a & d & _ & _ & _ & _ & _ & ->).
  unfold GetterB.Get. cbn [GetterB.store].
  split; [|split].
  - unfold with_fmt_fields. rewrite !lookup_insert_ne by discriminate.
    rewrite lookup_insert_eq. reflexivity.
  - intros key Hkey.
    assert (is_Some (with_fmt_fields 1 c ra y a d ∅ !! key)) as [v ->]; [|eauto].
    apply elem_of_dom. rewrite dom_with_fmt_fields. exact Hkey.
  - intros key Hkey.
    assert (with_fmt_fields 1 c ra y a d ∅ !! key = None) as ->; [|reflexivity].
    apply not_elem_of_dom. rewrite dom_with_fmt_fields. exact Hkey.
Qed.

Lemma GetterB_getter_is_complete_witness :
  fmt_map cd_fields
  ∧ GetterB.Get {| GetterB.length := 36; GetterB.store := cd_fields |} "Artist"
    = ("", Some (ErrKeyDoesNotExist "Artist")).
Proof.
  assert (GetterB.newWav (wave (le32 36) cd_fmt_chunk)
          = ([], (Some {| GetterB.length := 36; GetterB.store := cd_fields |}, None)))
    as Hw.
  { rewrite <- (NewGetter_RIFF GetterB.newWav noID3).
    exact (NewGetter_fmt noID3 "$" "000" "000" "000" "016" "000" "000" "000"
             "001" "000" "002" "000" "D" "172" "000" "000"
             "016" "177" "002" "000" "004" "000" "016" "000" [] eq_refl eq_refl). }
  destruct (proj2 (GetterB_getter_is_complete _ _ _ _ Hw) _ eq_refl)
    as (Hmap & _ & _ & Hother).
  split; [exact Hmap|]. apply Hother. unfold fmt_keys.
  rewrite !elem_of_union, !elem_of_singleton.
  intros [[[[[Hkey|Hkey]|Hkey]|Hkey]|Hkey]|Hkey]; discriminate.
Defined.

(** ** The streams that [NewGetter] accepts *)

Section StreamInversion.

Lemma byte_val_inj b b' : byte_val b = byte_val b' → b = b'.
Proof.
  unfold byte_val. intros Heq. apply N2Z.inj in Heq.
  pose proof (Byte.of_to_N b) as Hb.
  rewrite Heq, Byte.of_to_N in Hb. congruence.
Qed.

Lemma Uint16_inj b0 b1 b0' b1' :
  Uint16 b0 b1 = Uint16 b0' b1' → b0 = b0' ∧ b1 = b1'.
Proof.
  rewrite !Uint16_add. intros Heq.
  pose proof (byte_val_bounds b0). pose proof (byte_val_bounds b1).
  pose proof (byte_val_bounds b0'). pose proof (byte_val_bounds b1').
  split; apply byte_val_inj; lia.
Qed.

Lemma Uint32_inj b0 b1 b2 b3 b0' b1' b2' b3' :
  Uint32 b0 b1 b2 b3 = Uint32 b0' b1' b2' b3' →
  b0 = b0' ∧ b1 = b1' ∧ b2 = b2' ∧ b3 = b3'.
Proof.
  rewrite !Uint32_add. intros Heq.
  pose proof (byte_val_bounds b0). pose proof (byte_val_bounds b1).
  pose proof (byte_val_bounds b2). pose proof (byte_val_bounds b3).
  pose proof (byte_val_bounds b0'). pose proof (byte_val_bounds b1').
  pose proof (byte_val_bounds b2'). pose proof (byte_val_bounds b3').
  repeat split; apply byte_val_inj; lia.
Qed.

Lemma binary_Read_int16_stream_ok (s r : list byte) v :
  binary_Read_int16 s = (r, Ok v) →
  ∃ b0 b1, s = b0 :: b1 :: r ∧ v = to_int16 (Uint16 b0 b1).
Proof.
  destruct s as [|b0 [|b1 s]]; [discriminate..|].
  rewrite binary_Read_int16_stream. intros [= <- <-]. eauto.
Qed.

Lemma binary_Read_int32_stream_ok (s r : list byte) v :
  binary_Read_int32 s = (r, Ok v) →
  ∃ b0 b1 b2 b3, s = b0 :: b1 :: b2 :: b3 :: r ∧ v = to_int32 (Uint32 b0 b1 b2 b3).
Proof.
  destruct s as [|b0 [|b1 [|b2 [|b3 s]]]]; [discriminate..|].
  rewrite binary_Read_int32_stream. intros [= <- <-]. eauto 10.
Qed.

Lemma GetterB_expectChunkID_stream_ok expected (s r : list byte) md md' u :
  GetterB.expectChunkID expected (s, md) = ((r, md'), Ok u) →
  ∃ a b c d, s = a :: b :: c :: d :: r ∧ string_of [a; b; c; d] = expected ∧ md' = md.
Proof.
  destruct s as [|a [|b [|c [|d s]]]]; [discriminate..|].
  rewrite GetterB_expectChunkID_stream.
  destruct (String.eqb_spec expected (string_of [a; b; c; d])) as [->|]; [|discriminate].
  intros [= <- <-]. eauto 10.
Qed.

Lemma GetterB_readInt16_stream_ok prop (s r : list byte) md md' u :
  GetterB.readInt16 prop (s, md) = ((r, md'), Ok u) →
  ∃ b0 b1, s = b0 :: b1 :: r ∧ md' = <[prop := FormatInt (to_int16 (Uint16 b0 b1))]> md.
Proof.
  destruct s as [|b0 [|b1 s]]; [discriminate..|].
  rewrite GetterB_readInt16_stream. intros [= <- <-]. eauto.
Qed.

Lemma GetterB_readInt32_stream_ok prop (s r : list byte) md md' u :
  GetterB.readInt32 prop (s, md) = ((r, md'), Ok u) →
  ∃ b0 b1 b2 b3,
    s = b0 :: b1 :: b2 :: b3 :: r
    ∧ md' = <[prop := FormatInt (to_int32 (Uint32 b0 b1 b2 b3))]> md.
Proof.
  destruct s as [|b0 [|b1 [|b2 [|b3 s]]]]; [discriminate..|].
  rewrite GetterB_readInt32_stream. intros [= <- <-]. eauto 10.
Qed.

Lemma GetterB_readFormatLength_stream_ok (s r : list byte) md md' u :
  GetterB.readFormatLength (s, md) = ((r, md'), Ok u) →
  s = ("016" :: "000" :: "000" :: "000" :: r)%byte ∧ md' = md.
Proof.
  destruct s as [|b0 [|b1 [|b2 [|b3 s]]]]; [discriminate..|].
  rewrite GetterB_readFormatLength_stream.
  destruct (Z.eqb_spec 16 (to_int32 (Uint32 b0 b1 b2 b3))) as [Heq|]; [|discriminate].
  intros [= <- <-]. split; [|reflexivity].
  symmetry in Heq. apply to_int32_Uint32_16 in Heq.
  apply (Uint32_inj _ _ _ _ "016" "000" "000" "000") in Heq as (-> & -> & -> & ->).
  reflexivity.
Qed.

Lemma GetterB_readAudioFormat_stream_ok (s r : list byte) md md' u :
  GetterB.readAudioFormat (s, md) = ((r, md'), Ok u) →
  s = ("001" :: "000" :: r)%byte ∧ md' = <["AudioFormat" := FormatInt 1]> md.
Proof.
  destruct s as [|b0 [|b1 s]]; [discriminate..|].
  rewrite GetterB_readAudioFormat_stream.
  destruct (Z.eqb_spec 1 (to_int16 (Uint16 b0 b1))) as [Heq|]; [|discriminate].
  intros [= <- <-]. rewrite <- Heq. split; [|reflexivity].
  symmetry in Heq. apply to_int16_Uint16_1 in Heq.
  apply (Uint16_inj _ _ "001" "000") in Heq as (-> & ->). reflexivity.
Qed.

End StreamInversion.

(** X4. On a stream that is not handed to the ID3 reader, [NewGetter]
    over the reader with [expectChunkID] returns a [Getter] exactly
    when the stream is "RIFF", four bytes, "WAVE", "fmt ", the length
    16, the tag 1 and fourteen more bytes; the [Getter] then holds the
    six fields decoded from those bytes, there is no error, and the
    reader is left at the first byte after them.  Every other stream
    gives no [Getter]. *)
Theorem NewGetter_accepts_exactly
    (newID3 : list byte → list byte * (option GetterB.wav * option error))
    (s rest : list byte) (w : GetterB.wav) (e : option error) :
  not_ID3 s →
  Getter.NewGetter GetterB.newWav newID3 s = (rest, (Some w, e))
  ↔ e = None ∧ pcm_container s rest w.
Proof.
  intros HTAG. split.
  - intros Hres.
    destruct (NewGetter_outcomes _ _ _ _ _ _ HTAG Hres) as (s0 & -> & Hw).
    unfold GetterB.newWav in Hw.
    destruct (binary_Read_int32 s0) as [s1 [len|e1]] eqn:Hlen; [|discriminate].
    apply binary_Read_int32_stream_ok in Hlen as (l0 & l1 & l2 & l3 & -> & ->).
    destruct (bind _ _ (s1, ∅)) as [[s2 md] [[]|e2]] eqn:Hrun; [|discriminate].
    injection Hw as <- <- <-. split; [reflexivity|].
    apply bind_ok in Hrun as ([s3 md3] & [] & HWAVE & Hfmt).
    apply GetterB_expectChunkID_stream_ok in HWAVE as (a & b & c & d & -> & HWAVE & ->).
    apply (string_of_inj _ (bytes "WAVE")) in HWAVE. injection HWAVE as -> -> -> ->.
    unfold GetterB.readFormat in Hfmt.
    apply bind_ok in Hfmt as ([s4 md4] & [] & Hid & Hfmt).
    apply GetterB_expectChunkID_stream_ok in Hid as (a & b & c & d & -> & Hid & ->).
    apply (string_of_inj _ (bytes "fmt ")) in Hid. injection Hid as -> -> -> ->.
    apply bind_ok in Hfmt as ([s5 md5] & [] & H16 & Hfmt).
    apply GetterB_readFormatLength_stream_ok in H16 as (-> & ->).
    apply bind_ok in Hfmt as ([s6 md6] & [] & Htag & Hfmt).
    apply GetterB_readAudioFormat_stream_ok in Htag as (-> & ->).
    apply bind_ok in Hfmt as ([s7 md7] & [] & Hc & Hfmt).
    apply GetterB_readInt16_stream_ok in Hc as (c0 & c1 & -> & ->).
    apply bind_ok in Hfmt as ([s8 md8] & [] & Hr & Hfmt).
    apply GetterB_readInt32_stream_ok in Hr as (r0 & r1 & r2 & r3 & -> & ->).
    apply bind_ok in Hfmt as ([s9 md9] & [] & Hy & Hfmt).
    apply GetterB_readInt32_stream_ok in Hy as (y0 & y1 & y2 & y3 & -> & ->).
    apply bind_ok in Hfmt as ([s10 md10] & [] & Ha & Hfmt).
    apply GetterB_readInt16_stream_ok in Ha as (a0 & a1 & -> & ->).
    apply bind_ok in Hfmt as ([s11 md11] & [] & Hd & Hfmt).
    apply GetterB_readInt16_stream_ok in Hd as (d0 & d1 & -> & ->).
    injection Hfmt as <- <-.
    exists l0, l1, l2, l3, c0, c1, r0, r1, r2, r3, y0, y1, y2, y3, a0, a1, d0, d1.
    split; reflexivity.
  - intros (-> & l0 & l1 & l2 & l3 & c0 & c1 & r0 & r1 & r2 & r3 & y0 & y1 & y2 & y3
            & a0 & a1 & d0 & d1 & -> & ->).
    exact (NewGetter_fmt newID3 l0 l1 l2 l3 "016" "000" "000" "000" "001" "000"
             c0 c1 r0 r1 r2 r3 y0 y1 y2 y3 a0 a1 d0 d1 rest eq_refl eq_refl).
Qed.

Lemma NewGetter_accepts_exactly_witness :
  not_ID3 (riff (le32 36) cd_fmt_chunk)
  ∧ pcm_container (riff (le32 36) cd_fmt_chunk) []
      {| GetterB.length := 36; GetterB.store := cd_fields |}.
Proof.
  assert (not_ID3 (riff (le32 36) cd_fmt_chunk)) as HTAG by discriminate.
  split; [exact HTAG|].
  apply (proj1 (NewGetter_accepts_exactly noID3 _ [] _ None HTAG)).
  exact (NewGetter_fmt noID3 "$" "000" "000" "000" "016" "000" "000" "000"
           "001" "000" "002" "000" "D" "172" "000" "000"
           "016" "177" "002" "000" "004" "000" "016" "000" [] eq_refl eq_refl).
Defined.

(** ** The reader that stops after "WAVE" *)

(** X5. [newWav] of the first reader reads the outer length and the tag
    and nothing else: on a stream it returns a [Getter] with the length
    and an empty map when the tag is "WAVE", leaving every chunk unread,
    and the error "expected format WAVE, got " followed by the tag
    otherwise.  Over every reader, a [Getter] it returns comes without
    error and answers [Get] with "key does not exist" for every key. *)
Theorem GetterA_newWav_reads_no_chunk {R : Type} `{Reader R} (r r' : R)
    (w : GetterA.wav) (e : option error)
    (l0 l1 l2 l3 t0 t1 t2 t3 : byte) (rest : list byte) :
  (GetterA.newWav r = (r', (Some w, e)) →
   e = None ∧ GetterA.store w = ∅
   ∧ ∀ key, GetterA.Get w key = ("", Some (ErrKeyDoesNotExist key)))
  ∧ GetterA.newWav (l0 :: l1 :: l2 :: l3 :: t0 :: t1 :: t2 :: t3 :: rest)
    = if String.eqb "WAVE" (string_of [t0; t1; t2; t3])
      then (rest, (Some {| GetterA.length := to_int32 (Uint32 l0 l1 l2 l3);
                           GetterA.store := ∅ |}, None))
      else (rest, (None, Some (ErrExpectedFormat "WAVE" (string_of [t0; t1; t2; t3])))).
Proof.
  split.
  - unfold GetterA.newWav.
    destruct (binary_Read_int32 r) as [r1 [len|e1]]; [|discriminate].
    destruct (GetterA.sniffFormat (r1, ∅)) as [[r2 md] [[]|e2]] eqn:Hsniff; [|discriminate].
    unfold GetterA.sniffFormat in Hsniff. apply onReader_ok in Hsniff as [_ ->].
    intros [= <- <- <-]. split; [reflexivity|]. split; [reflexivity|].
    intros key. unfold GetterA.Get. cbn [GetterA.store].
    rewrite lookup_empty. reflexivity.
  - unfold GetterA.newWav. rewrite binary_Read_int32_stream.
    unfold GetterA.sniffFormat, onReader. rewrite Read_stream_cons.
    change (take 4 (t0 :: t1 :: t2 :: t3 :: rest)) with [t0; t1; t2; t3].
    change (drop 4 (t0 :: t1 :: t2 :: t3 :: rest)) with rest.
    cbv beta iota zeta. change (Z.of_nat (List.length [t0; t1; t2; t3])) with 4.
    cbn [Z.eqb Pos.eqb negb].
    destruct (String.eqb "WAVE" (string_of [t0; t1; t2; t3])); reflexivity.
Qed.

Lemma GetterA_newWav_reads_no_chunk_witness :
  GetterA.Get {| GetterA.length := 36; GetterA.store := ∅ |} "SampleRate"
  = ("", Some (ErrKeyDoesNotExist "SampleRate")).
Proof.
  assert (GetterA.newWav (wave (le32 36) cd_fmt_chunk)
          = (cd_fmt_chunk, (Some {| GetterA.length := 36; GetterA.store := ∅ |}, None)))
    as Hw.
  { exact (proj2 (GetterA_newWav_reads_no_chunk [] [] {| GetterA.length := 0;
             GetterA.store := ∅ |} None "$" "000" "000" "000" "W" "A" "V" "E" cd_fmt_chunk)). }
  exact (proj2 (proj2 (proj1 (GetterA_newWav_reads_no_chunk _ _ _ _
           "000" "000" "000" "000" "000" "000" "000" "000" []) Hw)) "SampleRate").
Defined.

(** ** The chunks that [readSubchunks] dispatches *)

Section Dispatch.
Variable newID3 : list byte → list byte * (option strmap * option error).

Lemma Tags_expectFourCC_limited expected a b c d (s : list byte) n :
  4 ≤ n →
  Tags.expectFourCC expected (LimitReader (a :: b :: c :: d :: s) n)
  = (LimitReader s (n - 4),
     if String.eqb expected (string_of [a; b; c; d]) then Ok tt
     else Err (ErrExpectedChunkID expected (string_of [a; b; c; d]))).
Proof.
  intros Hn. unfold Tags.expectFourCC, bind, Tags.readFourCC.
  rewrite Read_limited_stream by (done || lia). cbv zeta.
  destruct (Z.gtb_spec (Z.of_nat 4) n); [lia|].
  change (take 4 (a :: b :: c :: d :: s)) with [a; b; c; d].
  change (drop 4 (a :: b :: c :: d :: s)) with s.
  cbv beta iota. change (Z.of_nat (List.length [a; b; c; d])) with 4.
  change (Z.of_nat (length [a; b; c; d])) with 4.
  cbn [Z.eqb Pos.eqb negb].
  destruct (String.eqb expected (string_of [a; b; c; d])); reflexivity.
Qed.

Lemma Tags_expectFourCC_exhausted expected (s : list byte) n :
  n ≤ 0 →
  Tags.expectFourCC expected (LimitReader s n) = (LimitReader s n, Err EOF).
Proof.
  intros Hn. unfold Tags.expectFourCC, bind, Tags.readFourCC.
  unfold Read, Limited_Reader. cbn [LN LR].
  destruct (Z.leb_spec n 0); [reflexivity|lia].
Qed.

End Dispatch.

(** X6. A chunk whose identifier is none of "fmt ", "data", "LIST" and
    "INFO" makes [New] fail with the error "unrecognized chunk ID: "
    followed by the identifier, whatever its declared length; the
    eight header bytes have been consumed and the payload has not. *)
Theorem New_rejects_unknown_chunk
    (newID3 : list byte → list byte * (option strmap * option error))
    (l0 l1 l2 l3 a b c d n0 n1 n2 n3 : byte) (rest : list byte) :
  let id := string_of [a; b; c; d] in
  id ≠ "fmt " → id ≠ "data" → id ≠ "LIST" → id ≠ "INFO" →
  Tags.New newID3 (riff [l0; l1; l2; l3] (a :: b :: c :: d :: n0 :: n1 :: n2 :: n3 :: rest))
  = (rest, (None, Some (ErrUnrecognizedChunkID id))).
Proof.
  intros id Hfmt Hdata HLIST HINFO.
  apply String.eqb_neq in Hfmt, Hdata, HLIST, HINFO.
  change (riff _ _) with
    ("R" :: "I" :: "F" :: "F" :: l0 :: l1 :: l2 :: l3 :: "W" :: "A" :: "V" :: "E" ::
     a :: b :: c :: d :: n0 :: n1 :: n2 :: n3 :: rest)%byte.
  enter_wave. rewrite Tags_readSubchunks_stream. cbv zeta. fold id.
  rewrite Hfmt, Hdata, HLIST, HINFO. reflexivity.
Qed.

Lemma New_rejects_unknown_chunk_witness :
  Tags.New noID3 (riff (le32 12) (chunk "JUNK" 0 []))
  = ([], (None, Some (ErrUnrecognizedChunkID "JUNK"))).
Proof.
  exact (New_rejects_unknown_chunk noID3 "012" "000" "000" "000" "J" "U" "N" "K"
           "000" "000" "000" "000" []
           ltac:(discriminate) ltac:(discriminate) ltac:(discriminate) ltac:(discriminate)).
Defined.

(** X7. Of a "LIST" chunk [New] reads the four bytes of its type and
    nothing more: with a declared length of at least four, the type
    "INFO" gives an empty map and no error, any other type the error
    "expected chunk ID INFO, got " followed by the type; with a
    declared length of zero or less the limited reader is exhausted at
    once and [New] returns neither map nor error.  Of an "INFO" chunk
    it reads nothing and returns an empty map.  In each case the rest
    of the payload stays unread. *)
Theorem New_LIST_and_INFO_chunks
    (newID3 : list byte → list byte * (option strmap * option error))
    (l0 l1 l2 l3 n0 n1 n2 n3 u0 u1 u2 u3 : byte) (rest : list byte) :
  let n := to_int32 (Uint32 n0 n1 n2 n3) in
  let LIST s := riff [l0; l1; l2; l3] (bytes "LIST" ++ [n0; n1; n2; n3] ++ s) in
  (4 ≤ n →
   Tags.New newID3 (LIST (u0 :: u1 :: u2 :: u3 :: rest))
   = if String.eqb "INFO" (string_of [u0; u1; u2; u3])
     then (rest, (Some ∅, None))
     else (rest, (None, Some (ErrExpectedChunkID "INFO" (string_of [u0; u1; u2; u3])))))
  ∧ (n ≤ 0 → Tags.New newID3 (LIST rest) = (rest, (None, None)))
  ∧ Tags.New newID3 (riff [l0; l1; l2; l3] (bytes "INFO" ++ [n0; n1; n2; n3] ++ rest))
    = (rest, (Some ∅, None)).
Proof.
  intros n LIST. subst LIST. cbv beta.
  split; [|split].
  - intros Hn.
    change (riff _ _) with
      ("R" :: "I" :: "F" :: "F" :: l0 :: l1 :: l2 :: l3 :: "W" :: "A" :: "V" :: "E" ::
       "L" :: "I" :: "S" :: "T" :: n0 :: n1 :: n2 :: n3 ::
       u0 :: u1 :: u2 :: u3 :: rest)%byte.
    enter_wave. rewrite Tags_readSubchunks_stream. cbv zeta.
    change (String.eqb _ "fmt ") with false.
    change (String.eqb _ "data") with false.
    change (String.eqb _ "LIST") with true. cbv iota. fold n.
    unfold Tags.onData, Tags.readList, onReader.
    rewrite Tags_expectFourCC_limited by done.
    destruct (String.eqb "INFO" (string_of [u0; u1; u2; u3])); reflexivity.
  - intros Hn.
    change (riff _ _) with
      ("R" :: "I" :: "F" :: "F" :: l0 :: l1 :: l2 :: l3 :: "W" :: "A" :: "V" :: "E" ::
       "L" :: "I" :: "S" :: "T" :: n0 :: n1 :: n2 :: n3 :: rest)%byte.
    enter_wave. rewrite Tags_readSubchunks_stream. cbv zeta.
    change (String.eqb _ "fmt ") with false.
    change (String.eqb _ "data") with false.
    change (String.eqb _ "LIST") with true. cbv iota. fold n.
    unfold Tags.onData, Tags.readList, onReader.
    rewrite Tags_expectFourCC_exhausted by done. reflexivity.
  - change (riff _ _) with
      ("R" :: "I" :: "F" :: "F" :: l0 :: l1 :: l2 :: l3 :: "W" :: "A" :: "V" :: "E" ::
       "I" :: "N" :: "F" :: "O" :: n0 :: n1 :: n2 :: n3 :: rest)%byte.
    enter_wave. rewrite Tags_readSubchunks_stream. reflexivity.
Qed.

Lemma New_LIST_and_INFO_chunks_witness :
  Tags.New noID3 (riff (le32 24) (chunk "LIST" 12 (bytes "adtllabl") ++ bytes "xyz!"))
  = (bytes "labl" ++ bytes "xyz!", (None, Some (ErrExpectedChunkID "INFO" "adtl")))
  ∧ Tags.New noID3 (riff (le32 12) (chunk "LIST" 0 []) ++ bytes "INFO")
    = (bytes "INFO", (None, None)).
Proof.
  pose proof (New_LIST_and_INFO_chunks noID3 "024" "000" "000" "000"
                "012" "000" "000" "000" "a" "d" "t" "l" (bytes "labl" ++ bytes "xyz!"))
    as (HLIST & _ & _).
  pose proof (New_LIST_and_INFO_chunks noID3 "012" "000" "000" "000"
                "000" "000" "000" "000" "000" "000" "000" "000" (bytes "INFO"))
    as (_ & Hzero & _).
  split.
  - exact (HLIST ltac:(vm_compute; discriminate)).
  - exact (Hzero ltac:(vm_compute; discriminate)).
Defined.

(** X8. A "data" chunk is skipped with the declared length read as a
    signed 32-bit number.  When the length is zero, or 2^31 or more as
    an unsigned number (negative as read), nothing is skipped and [New]
    returns an empty map with the reader right after the header.  When
    the length is positive and more than the bytes that remain, all of
    them are consumed, the copy ends with [io.EOF], and [New] returns
    neither map nor error. *)
Theorem New_data_chunk_edge_lengths
    (newID3 : list byte → list byte * (option strmap * option error))
    (l0 l1 l2 l3 n0 n1 n2 n3 : byte) (rest : list byte) :
  let s := riff [l0; l1; l2; l3] (bytes "data" ++ [n0; n1; n2; n3] ++ rest) in
  (Uint32 n0 n1 n2 n3 = 0 ∨ 2 ^ 31 ≤ Uint32 n0 n1 n2 n3 →
   Tags.New newID3 s = (rest, (Some ∅, None)))
  ∧ (Z.of_nat (length rest) < Uint32 n0 n1 n2 n3 < 2 ^ 31 →
     Tags.New newID3 s = ([], (None, None))).
Proof.
  intros s. subst s.
  change (riff _ _) with
    ("R" :: "I" :: "F" :: "F" :: l0 :: l1 :: l2 :: l3 :: "W" :: "A" :: "V" :: "E" ::
     "d" :: "a" :: "t" :: "a" :: n0 :: n1 :: n2 :: n3 :: rest)%byte.
  enter_wave. rewrite Tags_readSubchunks_stream. cbv zeta.
  change (String.eqb _ "fmt ") with false.
  change (String.eqb _ "data") with true. cbv iota.
  pose proof (Uint32_bounds n0 n1 n2 n3) as Hb.
  split; intros Hn.
  - rewrite CopyN_Discard_stream_neg; [reflexivity|].
    unfold to_int32. destruct (Z.ltb_spec (Uint32 n0 n1 n2 n3) (2 ^ 31)); lia.
  - rewrite CopyN_Discard_stream_short; [reflexivity|].
    unfold to_int32. destruct (Z.ltb_spec (Uint32 n0 n1 n2 n3) (2 ^ 31)); lia.
Qed.

Lemma New_data_chunk_edge_lengths_witness :
  Tags.New noID3 (riff (le32 12) (chunk "data" (2 ^ 32 - 1) (bytes "abc")))
  = (bytes "abc", (Some ∅, None))
  ∧ Tags.New noID3 (riff (le32 12) (chunk "data" 1000 (bytes "abc"))) = ([], (None, None)).
Proof.
  pose proof (New_data_chunk_edge_lengths noID3 "012" "000" "000" "000"
                "255" "255" "255" "255" (bytes "abc")) as (Hneg & _).
  pose proof (New_data_chunk_edge_lengths noID3 "012" "000" "000" "000"
                "232" "003" "000" "000" (bytes "abc")) as (_ & Hshort).
  split.
  - exact (Hneg ltac:(right; vm_compute; discriminate)).
  - exact (Hshort ltac:(split; vm_compute; reflexivity)).
Defined.

(** ** The declared length as a bound *)

Section WithinLimit.

Lemma within_limit_refl l : within_limit l l.
Proof. exists 0%nat. rewrite drop_0. repeat split; lia. Qed.

Lemma within_limit_trans l1 l2 l3 :
  within_limit l1 l2 → within_limit l2 l3 → within_limit l1 l3.
Proof.
  intros (j1 & Hj1 & HR1 & HN1) (j2 & Hj2 & HR2 & HN2).
  exists (j1 + j2)%nat. rewrite HR2, HR1, drop_drop, HN2, HN1.
  repeat split; lia.
Qed.

Lemma Read_within_limit (l : LimitedReader (list byte)) n :
  within_limit l (Read l n).1.
Proof.
  destruct l as [s N]. destruct (Z.leb_spec N 0) as [HN|HN].
  { unfold Read, Limited_Reader. cbn [LN LR].
    destruct (Z.leb_spec N 0); [|lia]. apply within_limit_refl. }
  destruct s as [|b s].
  { unfold Read at 1, Limited_Reader. cbn [LN LR].
    destruct (Z.leb_spec N 0); [lia|]. unfold Read, stream_Reader. cbn [fst length].
    exists 0%nat. cbn [LR LN]. rewrite drop_0. repeat split; lia. }
  rewrite Read_limited_stream by (done || lia). cbv zeta. cbn [fst].
  set (k := if Z.of_nat n >? N then Z.to_nat N else n).
  assert (k ≤ Z.to_nat N)%nat as Hk
    by (subst k; destruct (Z.gtb_spec (Z.of_nat n) N); lia).
  exists (length (take k (b :: s))). cbn [LR LN].
  pose proof (length_take (b :: s) k) as Hlt.
  split; [lia|]. split; [|reflexivity].
  destruct (decide (k ≤ length (b :: s))%nat).
  - f_equal. lia.
  - rewrite !drop_ge by lia. reflexivity.
Qed.

Lemma ReadFull_within_limit (l : LimitedReader (list byte)) n :
  (0 < n)%nat → within_limit l (ReadFull l n).1.
Proof.
  intros Hn. destruct l as [s N]. rewrite ReadFull_limited_stream by done.
  cbv zeta. cbn [fst]. eexists. cbn [LR LN]. split; [|split; reflexivity]. lia.
Qed.

Lemma binary_Read_int16_bounded : bounded_reader binary_Read_int16.
Proof.
  intros l. pose proof (ReadFull_within_limit l 2 ltac:(lia)) as Hw.
  unfold binary_Read_int16. destruct (ReadFull l 2) as [l' [bs oe]].
  destruct bs as [|b0 [|b1 [|b2 bs]]], oe; exact Hw.
Qed.

Lemma binary_Read_int32_bounded : bounded_reader binary_Read_int32.
Proof.
  intros l. pose proof (ReadFull_within_limit l 4 ltac:(lia)) as Hw.
  unfold binary_Read_int32. destruct (ReadFull l 4) as [l' [bs oe]].
  destruct bs as [|b0 [|b1 [|b2 [|b3 [|b4 bs]]]]], oe; exact Hw.
Qed.

Lemma Tags_expectFourCC_bounded expected : bounded_reader (Tags.expectFourCC expected).
Proof.
  intros l. pose proof (Read_within_limit l 4) as Hw.
  unfold Tags.expectFourCC, bind, Tags.readFourCC.
  destruct (Read l 4) as [l' [bs [e|]]]; [exact Hw|].
  destruct (negb (4 =? _)); [exact Hw|].
  destruct (negb (String.eqb _ _)); exact Hw.
Qed.

Lemma bounded_method_onReader {A} (m : M (LimitedReader (list byte)) A) :
  bounded_reader m → bounded_method (onReader m).
Proof.
  intros Hm l md. specialize (Hm l). unfold onReader.
  destruct (m l) as [l' res]. exact Hm.
Qed.

Lemma bounded_method_bind {A B} (m : M (LimitedReader (list byte) * strmap) A)
    (k : A → M (LimitedReader (list byte) * strmap) B) :
  bounded_method m → (∀ a, bounded_method (k a)) → bounded_method (bind m k).
Proof.
  intros Hm Hk l md. specialize (Hm l md). unfold bind.
  destruct (m (l, md)) as [[l' md'] [a|e]]; [|exact Hm].
  exact (within_limit_trans _ _ _ Hm (Hk a l' md')).
Qed.

Lemma bounded_method_state {A} (m : M (LimitedReader (list byte) * strmap) A) :
  (∀ l md, (m (l, md)).1.1 = l) → bounded_method m.
Proof. intros Hm l md. rewrite Hm. apply within_limit_refl. Qed.

Lemma Tags_readFormat_bounded : bounded_method Tags.readFormat.
Proof.
  assert (∀ prop v, bounded_method
            (setProp (R := LimitedReader (list byte)) prop v)) as Hset
    by (intros prop v; apply bounded_method_state; done).
  unfold Tags.readFormat, Tags.readAudioFormat, Tags.readInt16, Tags.readInt32.
  repeat first
    [ apply bounded_method_bind; [|intros ?]
    | apply bounded_method_onReader, binary_Read_int16_bounded
    | apply bounded_method_onReader, binary_Read_int32_bounded
    | apply Hset
    | (destruct (negb _); [apply bounded_method_state; done|apply Hset])
    | apply bounded_method_state; done ].
Qed.

Lemma Tags_readSubchunks_within a b c d n0 n1 n2 n3 (s r' : list byte) md md' res :
  Tags.readSubchunks (a :: b :: c :: d :: n0 :: n1 :: n2 :: n3 :: s, md)
  = ((r', md'), res) →
  ∃ j, (j ≤ Z.to_nat (to_int32 (Uint32 n0 n1 n2 n3)))%nat ∧ r' = drop j s.
Proof.
  rewrite Tags_readSubchunks_stream. cbv zeta.
  set (n := to_int32 (Uint32 n0 n1 n2 n3)).
  assert (∀ A (m : M (LimitedReader (list byte) * strmap) A) res',
            bounded_method m →
            Tags.onData (LimitReader s n) m (s, md) = ((r', md'), res') →
            ∃ j, (j ≤ Z.to_nat n)%nat ∧ r' = drop j s) as HonData.
  { intros A m res' Hm. specialize (Hm (LimitReader s n) md). unfold Tags.onData.
    destruct (m (LimitReader s n, md)) as [[l' md1] res1].
    intros [= <- _ _]. destruct Hm as (j & Hj & HR & _). exists j. done. }
  destruct (String.eqb _ "fmt "); [apply HonData, Tags_readFormat_bounded|].
  destruct (String.eqb _ "data").
  { destruct (Z.le_gt_cases n 0) as [Hn|Hn];
      [rewrite CopyN_Discard_stream_neg by done; intros [= <- _ _];
       exists 0%nat; rewrite drop_0; split; [lia|done]|].
    destruct (Z.le_gt_cases n (Z.of_nat (length s))) as [Hle|Hgt].
    - rewrite CopyN_Discard_stream by lia. intros [= <- _ _]. eauto.
    - rewrite CopyN_Discard_stream_short by lia. intros [= <- _ _].
      exists (length s). rewrite drop_all. split; [lia|done]. }
  destruct (String.eqb _ "LIST").
  { apply HonData. apply bounded_method_onReader, Tags_expectFourCC_bounded. }
  destruct (String.eqb _ "INFO").
  { apply HonData. apply bounded_method_state. done. }
  intros [= <- _ _]. exists 0%nat. rewrite drop_0. split; [lia|done].
Qed.

End WithinLimit.

(** X9. Whatever chunk follows the "WAVE" tag and whatever [New] makes
    of it, [New] never reads past the end that the chunk declares: of
    the bytes after the eight header bytes it consumes at most the
    declared length (none when that length is negative as read), so a
    format chunk or a list chunk with a short declared length cannot
    make it read into the next chunk. *)
Theorem New_stays_within_declared_length
    (newID3 : list byte → list byte * (option strmap * option error))
    (l0 l1 l2 l3 a b c d n0 n1 n2 n3 : byte) (s r : list byte)
    (m : option strmap) (e : option error) :
  Tags.New newID3 (riff [l0; l1; l2; l3] (a :: b :: c :: d :: n0 :: n1 :: n2 :: n3 :: s))
  = (r, (m, e)) →
  ∃ j, (j ≤ Z.to_nat (to_int32 (Uint32 n0 n1 n2 n3)))%nat ∧ r = drop j s.
Proof.
  change (riff _ _) with
    ("R" :: "I" :: "F" :: "F" :: l0 :: l1 :: l2 :: l3 :: "W" :: "A" :: "V" :: "E" ::
     a :: b :: c :: d :: n0 :: n1 :: n2 :: n3 :: s)%byte.
  enter_wave.
  destruct (Tags.readSubchunks _) as [[r1 md1] res] eqn:Hsub.
  apply Tags_readSubchunks_within in Hsub.
  destruct res as [[]|e1]; [intros [= <- _ _]; exact Hsub|].
  destruct (is_EOF e1); intros [= <- _ _]; exact Hsub.
Qed.

Lemma New_stays_within_declared_length_witness :
  ∃ j, (j ≤ 4)%nat
       ∧ bytes "data" ++ le32 0 = drop j (le16 1 ++ le16 2 ++ bytes "data" ++ le32 0).
Proof.
  exact (New_stays_within_declared_length noID3 "$" "000" "000" "000"
           "f" "m" "t" " " "004" "000" "000" "000"
           (le16 1 ++ le16 2 ++ bytes "data" ++ le32 0) (bytes "data" ++ le32 0)
           None None
           (proj2 (fmt_length_4_ends_silently noID3 "$" "000" "000" "000"
                     (bytes "data" ++ le32 0)))).
Defined.

(** ** The end of the stream during sniffing *)

(** X10. On a stream that is not handed to the ID3 reader, [New]
    returns the error [io.EOF] exactly when the stream is empty or is
    "RIF" and nothing more: the end of the stream is reported while the
    header is sniffed and never after it.  A stream of one or two bytes
    gives the error "expected to read 3 bytes, actually read " followed
    by its length.  In all these cases every byte has been consumed and
    no map is returned; [NewGetter] does the same. *)
Theorem sniff_end_of_stream {wav : Type}
    (newID3 : list byte → list byte * (option strmap * option error))
    (newWav' newID3' : list byte → list byte * (option wav * option error))
    (s : list byte) :
  not_ID3 s →
  ((∃ r m, Tags.New newID3 s = (r, (m, Some EOF))) ↔ s = [] ∨ s = bytes "RIF")
  ∧ (s = [] ∨ s = bytes "RIF" →
     Tags.New newID3 s = ([], (None, Some EOF))
     ∧ Getter.NewGetter newWav' newID3' s = ([], (None, Some EOF)))
  ∧ ((0 < length s < 3)%nat →
     Tags.New newID3 s = ([], (None, Some (ErrShortRead 3 (Z.of_nat (length s)))))
     ∧ Getter.NewGetter newWav' newID3' s
       = ([], (None, Some (ErrShortRead 3 (Z.of_nat (length s)))))).
Proof.
  intros HTAG. split; [split|split].
  - intros (r & m & Hres).
    destruct s as [|b0 [|b1 [|b2 s]]]; [left; reflexivity|discriminate..|].
    unfold not_ID3 in HTAG. change (take 3 _) with [b0; b1; b2] in HTAG.
    destruct (String.eqb_spec (string_of [b0; b1; b2]) "RIF") as [HRIF|HRIF];
      [|rewrite Tags_New_other in Hres by done; discriminate].
    apply (string_of_inj _ (bytes "RIF")) in HRIF. injection HRIF as -> -> ->.
    destruct s as [|b3 s]; [right; reflexivity|].
    destruct (Byte.eqb b3 "F") eqn:HF;
      [|rewrite Tags_New_RIF_other in Hres by (apply Byte.eqb_false; done); discriminate].
    apply Byte.byte_dec_bl in HF as ->. rewrite Tags_New_RIFF in Hres.
    destruct (Tags.newWav s) as [r1 [m1 [e1|]]]; [|discriminate].
    destruct e1; discriminate.
  - intros [->| ->]; eexists _, _; reflexivity.
  - intros [->| ->]; split; reflexivity.
  - intros Hlen. destruct s as [|b0 [|b1 [|b2 s]]]; cbn [length] in Hlen; try lia;
      split; reflexivity.
Qed.

Lemma sniff_end_of_stream_witness :
  not_ID3 (bytes "RIF")
  ∧ Tags.New noID3 (bytes "RIF") = ([], (None, Some EOF))
  ∧ Getter.NewGetter GetterB.newWav noID3 (bytes "RIF") = ([], (None, Some EOF)).
Proof.
  assert (not_ID3 (bytes "RIF")) as HTAG by discriminate.
  split; [exact HTAG|].
  exact (proj1 (proj2 (sniff_end_of_stream noID3 GetterB.newWav noID3 (bytes "RIF") HTAG))
           (or_intror eq_refl)).
Defined.

(** ** Signed fields *)

Lemma FormatInt_neg p : FormatInt (Z.neg p) = "-" +:+ FormatInt (Z.pos p).
Proof. reflexivity. Qed.

(** X11. The fields are decoded as signed numbers.  A 16-bit field
    whose second byte is 128 or more, and a 32-bit field whose fourth
    byte is 128 or more, is stored as a minus sign followed by the
    numeral of 2^16, respectively 2^32, less the unsigned value; every
    other field is stored as the numeral of its unsigned value.  This
    holds for [readInt16] and [readInt32] of both readers. *)
Theorem fields_are_signed (prop : string)
    (b0 b1 b2 b3 : byte) (s : list byte) (md : strmap) (n : Z) :
  let u16 := Uint16 b0 b1 in
  let u32 := Uint32 b0 b1 b2 b3 in
  let v16 := if byte_val b1 <? 128 then FormatInt u16
             else "-" +:+ FormatInt (2 ^ 16 - u16) in
  let v32 := if byte_val b3 <? 128 then FormatInt u32
             else "-" +:+ FormatInt (2 ^ 32 - u32) in
  GetterB.readInt16 prop (b0 :: b1 :: s, md) = ((s, <[prop := v16]> md), Ok tt)
  ∧ GetterB.readInt32 prop (b0 :: b1 :: b2 :: b3 :: s, md)
    = ((s, <[prop := v32]> md), Ok tt)
  ∧ (2 ≤ n →
     Tags.readInt16 prop (LimitReader (b0 :: b1 :: s) n, md)
     = ((LimitReader s (n - 2), <[prop := v16]> md), Ok tt))
  ∧ (4 ≤ n →
     Tags.readInt32 prop (LimitReader (b0 :: b1 :: b2 :: b3 :: s) n, md)
     = ((LimitReader s (n - 4), <[prop := v32]> md), Ok tt)).
Proof.
  intros u16 u32 v16 v32.
  assert (FormatInt (to_int16 u16) = v16) as H16.
  { subst v16 u16. rewrite Uint16_add. unfold to_int16.
    pose proof (byte_val_bounds b0). pose proof (byte_val_bounds b1).
    destruct (Z.ltb_spec (byte_val b1) 128);
      destruct (Z.ltb_spec (byte_val b0 + byte_val b1 * 2 ^ 8) (2 ^ 15)); try lia;
      [reflexivity|].
    set (u := byte_val b0 + byte_val b1 * 2 ^ 8) in *.
    destruct (u - 2 ^ 16) as [|p|p] eqn:Hu; try lia.
    rewrite FormatInt_neg. replace (2 ^ 16 - u) with (Z.pos p) by lia. reflexivity. }
  assert (FormatInt (to_int32 u32) = v32) as H32.
  { subst v32 u32. rewrite Uint32_add. unfold to_int32.
    pose proof (byte_val_bounds b0). pose proof (byte_val_bounds b1).
    pose proof (byte_val_bounds b2). pose proof (byte_val_bounds b3).
    set (u := byte_val b0 + byte_val b1 * 2 ^ 8 + byte_val b2 * 2 ^ 16
              + byte_val b3 * 2 ^ 24) in *.
    destruct (Z.ltb_spec (byte_val b3) 128); destruct (Z.ltb_spec u (2 ^ 31));
      try (subst u; lia); [reflexivity|].
    destruct (u - 2 ^ 32) as [|p|p] eqn:Hu; try (subst u; lia).
    rewrite FormatInt_neg. replace (2 ^ 32 - u) with (Z.pos p) by lia. reflexivity. }
  rewrite <- H16, <- H32. split; [|split; [|split]].
  - apply GetterB_readInt16_stream.
  - apply GetterB_readInt32_stream.
  - intros Hn. apply Tags_readInt16_limited, Hn.
  - intros Hn. apply Tags_readInt32_limited, Hn.
Qed.

Lemma fields_are_signed_witness :
  Tags.readInt16 "NumChannels" (LimitReader ["255"; "255"]%byte 2, ∅)
  = ((LimitReader [] 0, <["NumChannels" := "-1"]> ∅), Ok tt)
  ∧ Tags.readInt32 "SampleRate" (LimitReader ["000"; "000"; "000"; "128"]%byte 4, ∅)
    = ((LimitReader [] 0, <["SampleRate" := "-2147483648"]> ∅), Ok tt).
Proof.
  split.
  - exact (proj1 (proj2 (proj2 (fields_are_signed "NumChannels"
             "255" "255" "000" "000" [] ∅ 2))) ltac:(lia)).
  - exact (proj2 (proj2 (proj2 (fields_are_signed "SampleRate"
             "000" "000" "000" "128" [] ∅ 4))) ltac:(lia)).
Defined.

(** ** The format reader that is not called yet *)

Section GetterAFacts.

Lemma GetterA_readFormatID_stream a b c d (s : list byte) md :
  GetterA.readFormatID (a :: b :: c :: d :: s, md)
  = ((s, md), if String.eqb "fmt " (string_of [a; b; c; d]) then Ok tt
              else Err (ErrExpectedFormat "fmt " (string_of [a; b; c; d]))).
Proof.
  unfold GetterA.readFormatID, onReader. rewrite Read_stream_cons.
  change (take 4 (a :: b :: c :: d :: s)) with [a; b; c; d].
  change (drop 4 (a :: b :: c :: d :: s)) with s.
  cbv beta iota zeta. change (Z.of_nat (List.length [a; b; c; d])) with 4.
  change (negb (4 =? 4)) with false. cbv iota.
  destruct (String.eqb "fmt " (string_of [a; b; c; d])); reflexivity.
Qed.

Lemma GetterA_readFormatLength_stream n0 n1 n2 n3 (s : list byte) md :
  GetterA.readFormatLength (n0 :: n1 :: n2 :: n3 :: s, md)
  = ((s, md), if 16 =? to_int32 (Uint32 n0 n1 n2 n3) then Ok tt
              else Err (ErrFmtChunkLength 16 (to_int32 (Uint32 n0 n1 n2 n3)))).
Proof.
  unfold GetterA.readFormatLength, bind, onReader.
  rewrite binary_Read_int32_stream. destruct (16 =? _); reflexivity.
Qed.

Lemma GetterA_readAudioFormat_stream t0 t1 (s : list byte) md :
  GetterA.readAudioFormat (t0 :: t1 :: s, md)
  = if 1 =? to_int16 (Uint16 t0 t1)
    then ((s, <["AudioFormat" := FormatInt (to_int16 (Uint16 t0 t1))]> md), Ok tt)
    else ((s, md), Err (ErrPcmAudioFormat 1 (to_int16 (Uint16 t0 t1)))).
Proof.
  unfold GetterA.readAudioFormat, bind, onReader.
  rewrite binary_Read_int16_stream. destruct (1 =? _); reflexivity.
Qed.

End GetterAFacts.

(** X12. [readFormat] of the first reader checks, in this order, the
    identifier "fmt ", the declared length 16 and the tag 1, each
    failure leaving the map as it was and the reader right after the
    bytes of the failed check; it then stores "AudioFormat" and
    "NumChannels" and stops, so that the remaining twelve bytes of the
    payload stay unread and the other four fields are never stored. *)
Theorem GetterA_readFormat_stores_two_fields
    (a b c d n0 n1 n2 n3 t0 t1 c0 c1 : byte) (rest : list byte) (md : strmap) :
  let id := string_of [a; b; c; d] in
  let n := to_int32 (Uint32 n0 n1 n2 n3) in
  let tag := to_int16 (Uint16 t0 t1) in
  GetterA.readFormat
    (a :: b :: c :: d :: n0 :: n1 :: n2 :: n3 :: t0 :: t1 :: c0 :: c1 :: rest, md)
  = if negb (String.eqb "fmt " id)
    then ((n0 :: n1 :: n2 :: n3 :: t0 :: t1 :: c0 :: c1 :: rest, md),
          Err (ErrExpectedFormat "fmt " id))
    else if negb (16 =? n)
    then ((t0 :: t1 :: c0 :: c1 :: rest, md), Err (ErrFmtChunkLength 16 n))
    else if negb (1 =? tag)
    then ((c0 :: c1 :: rest, md), Err (ErrPcmAudioFormat 1 tag))
    else ((rest, <["NumChannels" := FormatInt (to_int16 (Uint16 c0 c1))]>
                   (<["AudioFormat" := "1"]> md)), Ok tt).
Proof.
  intros id n tag. unfold GetterA.readFormat, bind at 1.
  rewrite GetterA_readFormatID_stream. fold id.
  destruct (String.eqb "fmt " id); [|reflexivity]. cbn [negb].
  unfold bind at 1. rewrite GetterA_readFormatLength_stream. fold n.
  destruct (16 =? n); [|reflexivity]. cbn [negb].
  unfold bind at 1. rewrite GetterA_readAudioFormat_stream. fold tag.
  destruct (Z.eqb_spec 1 tag) as [Htag|Htag]; [|reflexivity]. cbn [negb].
  rewrite <- Htag. reflexivity.
Qed.

(** ** Truncated containers *)

(** X13. Cut a container that holds one format chunk of declared
    length 16 and tag 1 anywhere before its last byte: [NewGetter] over
    the reader with [expectChunkID] returns an error and no [Getter],
    at every one of the thirty-six cuts, and [New] returns no map. *)
Theorem truncated_container_gives_no_map
    (newID3 : list byte → list byte * (option strmap * option error))
    (newID3' : list byte → list byte * (option GetterB.wav * option error))
    (l0 l1 l2 l3 c0 c1 r0 r1 r2 r3 y0 y1 y2 y3 a0 a1 d0 d1 : byte) (k : nat) :
  let s := riff [l0; l1; l2; l3]
             (bytes "fmt " ++ le32 16 ++ le16 1 ++
              [c0; c1; r0; r1; r2; r3; y0; y1; y2; y3; a0; a1; d0; d1]) in
  (k < length s)%nat →
  (∃ r e, Getter.NewGetter GetterB.newWav newID3' (take k s) = (r, (None, Some e)))
  ∧ (∃ r e, Tags.New newID3 (take k s) = (r, (None, e))).
Proof.
  intros s Hk. subst s. change (length _) with 36%nat in Hk.
  do 36 (destruct k as [|k]; [split; eexists _, _; vm_compute; reflexivity|]).
  lia.
Qed.

Lemma truncated_container_gives_no_map_witness :
  (∃ r e, Getter.NewGetter GetterB.newWav noID3
            (take 30 (riff (le32 36) cd_fmt_chunk)) = (r, (None, Some e)))
  ∧ (∃ r e, Tags.New noID3 (take 30 (riff (le32 36) cd_fmt_chunk)) = (r, (None, e))).
Proof.
  exact (truncated_container_gives_no_map noID3 noID3 "$" "000" "000" "000"
           "002" "000" "D" "172" "000" "000" "016" "177" "002" "000"
           "004" "000" "016" "000" 30 ltac:(cbn; lia)).
Defined.

(** ** The chunk header *)

(** X14. [readChunk] needs the eight bytes of a header.  Given them it
    returns the identifier, the length as a signed 32-bit number and a
    reader limited to that length, with the stream right after the
    header.  Given fewer it fails after consuming all of them: with
    [io.EOF] when none or exactly four are there, with "expected to
    read 4 bytes, actually read " and their number when one to three
    are there, with [io.ErrUnexpectedEOF] when five to seven are
    there. *)
Theorem readChunk_needs_eight_bytes (s : list byte) :
  match s with
  | a :: b :: c :: d :: n0 :: n1 :: n2 :: n3 :: rest =>
      Tags.readChunk s
      = (rest, Ok (string_of [a; b; c; d], to_int32 (Uint32 n0 n1 n2 n3),
                   LimitReader rest (to_int32 (Uint32 n0 n1 n2 n3))))
  | _ =>
      Tags.readChunk s
      = ([], Err (if (length s =? 0)%nat || (length s =? 4)%nat then EOF
                  else if (length s <? 4)%nat then ErrShortRead 4 (Z.of_nat (length s))
                  else ErrUnexpectedEOF))
  end.
Proof.
  destruct s as [|h0 [|h1 [|h2 [|h3 [|h4 [|h5 [|h6 [|h7 s]]]]]]]]; reflexivity.
Qed.

(** ** The streams from which [New] returns fields *)

Section LimitedInversion.

Lemma binary_Read_int16_limited_ok (s : list byte) n l' v :
  binary_Read_int16 (LimitReader s n) = (l', Ok v) →
  ∃ b0 b1 rest,
    s = b0 :: b1 :: rest ∧ 2 ≤ n ∧ l' = LimitReader rest (n - 2)
    ∧ v = to_int16 (Uint16 b0 b1).
Proof.
  unfold binary_Read_int16. rewrite ReadFull_limited_stream by lia. cbv zeta.
  set (j := ((2 `min` Z.to_nat n) `min` length s)%nat).
  destruct (Nat.eqb_spec j 0) as [|_];
    [destruct (take j s) as [|? [|? [|? ?]]]; discriminate|].
  destruct (Nat.leb_spec 2 j) as [Hj|_];
    [|destruct (take j s) as [|? [|? [|? ?]]]; discriminate].
  destruct s as [|b0 [|b1 s]]; [cbn [length] in j; lia..|].
  assert (2 ≤ n) as Hn by lia.
  assert (j = 2%nat) as Hj2 by lia. rewrite Hj2. clear Hj2 Hj j.
  cbn [take drop]. rewrite take_0, drop_0. intros [= <- <-].
  exists b0, b1, s.
  split; [reflexivity|]. split; [lia|]. split; [f_equal; lia|reflexivity].
Qed.

Lemma binary_Read_int32_limited_ok (s : list byte) n l' v :
  binary_Read_int32 (LimitReader s n) = (l', Ok v) →
  ∃ b0 b1 b2 b3 rest,
    s = b0 :: b1 :: b2 :: b3 :: rest ∧ 4 ≤ n ∧ l' = LimitReader rest (n - 4)
    ∧ v = to_int32 (Uint32 b0 b1 b2 b3).
Proof.
  unfold binary_Read_int32. rewrite ReadFull_limited_stream by lia. cbv zeta.
  set (j := ((4 `min` Z.to_nat n) `min` length s)%nat).
  destruct (Nat.eqb_spec j 0) as [|_];
    [destruct (take j s) as [|? [|? [|? [|? [|? ?]]]]]; discriminate|].
  destruct (Nat.leb_spec 4 j) as [Hj|_];
    [|destruct (take j s) as [|? [|? [|? [|? [|? ?]]]]]; discriminate].
  destruct s as [|b0 [|b1 [|b2 [|b3 s]]]]; [cbn [length] in j; lia..|].
  assert (4 ≤ n) as Hn by lia.
  assert (j = 4%nat) as Hj4 by lia. rewrite Hj4. clear Hj4 Hj j.
  cbn [take drop]. rewrite take_0, drop_0. intros [= <- <-].
  exists b0, b1, b2, b3, s.
  split; [reflexivity|]. split; [lia|]. split; [f_equal; lia|reflexivity].
Qed.

Lemma Tags_readFormat_limited_ok (s : list byte) n l' md md' u :
  Tags.readFormat (LimitReader s n, md) = ((l', md'), Ok u) →
  ∃ c0 c1 r0 r1 r2 r3 y0 y1 y2 y3 a0 a1 d0 d1 rest,
    16 ≤ n
    ∧ s = ("001" :: "000" :: c0 :: c1 :: r0 :: r1 :: r2 :: r3 ::
           y0 :: y1 :: y2 :: y3 :: a0 :: a1 :: d0 :: d1 :: rest)%byte
    ∧ l' = LimitReader rest (n - 16)
    ∧ md' = with_fmt_fields 1 (to_int16 (Uint16 c0 c1))
              (to_int32 (Uint32 r0 r1 r2 r3)) (to_int32 (Uint32 y0 y1 y2 y3))
              (to_int16 (Uint16 a0 a1)) (to_int16 (Uint16 d0 d1)) md.
Proof.
  intros Hok. unfold Tags.readFormat in Hok.
  apply bind_ok in Hok as ([k1 md1] & [] & H1 & Hok).
  apply bind_ok in Hok as ([k2 md2] & [] & H2 & Hok).
  apply bind_ok in Hok as ([k3 md3] & [] & H3 & Hok).
  apply bind_ok in Hok as ([k4 md4] & [] & H4 & Hok).
  apply bind_ok in Hok as ([k5 md5] & [] & H5 & Hok).
  apply bind_ok in Hok as ([k6 md6] & [] & H6 & Hok).
  injection Hok as <- <-.
  unfold Tags.readAudioFormat in H1.
  apply bind_ok in H1 as ([k0 md0] & tag & Hread & Hk).
  apply onReader_ok in Hread as [Hread ->].
  apply binary_Read_int16_limited_ok in Hread as (t0 & t1 & s1 & -> & Hn1 & -> & ->).
  revert Hk. destruct (Z.eqb_spec 1 (to_int16 (Uint16 t0 t1))) as [Htag|]; [|discriminate].
  rewrite <- Htag. intros [= <- <-].
  symmetry in Htag. apply to_int16_Uint16_1 in Htag.
  apply (Uint16_inj _ _ "001" "000") in Htag as (-> & ->).
  unfold Tags.readInt16 in H2.
  apply bind_ok in H2 as ([k0 md0] & v & Hread & Hk).
  apply onReader_ok in Hread as [Hread ->].
  apply binary_Read_int16_limited_ok in Hread as (c0 & c1 & s2 & -> & Hn2 & -> & ->).
  injection Hk as <- <-.
  unfold Tags.readInt32 in H3.
  apply bind_ok in H3 as ([k0 md0] & v & Hread & Hk).
  apply onReader_ok in Hread as [Hread ->].
  apply binary_Read_int32_limited_ok in Hread
    as (r0 & r1 & r2 & r3 & s3 & -> & Hn3 & -> & ->).
  injection Hk as <- <-.
  unfold Tags.readInt32 in H4.
  apply bind_ok in H4 as ([k0 md0] & v & Hread & Hk).
  apply onReader_ok in Hread as [Hread ->].
  apply binary_Read_int32_limited_ok in Hread
    as (y0 & y1 & y2 & y3 & s4 & -> & Hn4 & -> & ->).
  injection Hk as <- <-.
  unfold Tags.readInt16 in H5.
  apply bind_ok in H5 as ([k0 md0] & v & Hread & Hk).
  apply onReader_ok in Hread as [Hread ->].
  apply binary_Read_int16_limited_ok in Hread as (a0 & a1 & s5 & -> & Hn5 & -> & ->).
  injection Hk as <- <-.
  unfold Tags.readInt16 in H6.
  apply bind_ok in H6 as ([k0 md0] & v & Hread & Hk).
  apply onReader_ok in Hread as [Hread ->].
  apply binary_Read_int16_limited_ok in Hread as (d0 & d1 & s6 & -> & Hn6 & -> & ->).
  injection Hk as <- <-.
  exists c0, c1, r0, r1, r2, r3, y0, y1, y2, y3, a0, a1, d0, d1, s6.
  split; [lia|]. split; [reflexivity|]. split; [f_equal; lia|reflexivity].
Qed.

Lemma with_fmt_fields_nonempty tag c r y a d md : with_fmt_fields tag c r y a d md ≠ ∅.
Proof. unfold with_fmt_fields. apply insert_non_empty. Qed.

End LimitedInversion.

(** X15. On a stream that is not handed to the ID3 reader, [New]
    returns a map that is not empty exactly when the stream is "RIFF",
    four bytes, "WAVE", "fmt ", a declared length of at least 16 (as a
    signed 32-bit number), the tag 1 and fourteen more bytes.  The map
    then holds the six fields decoded from those bytes, there is no
    error, and the reader is left right after the sixteenth byte of the
    payload, whatever the declared length. *)
Theorem New_returns_fields_exactly
    (newID3 : list byte → list byte * (option strmap * option error))
    (s rest : list byte) (md : strmap) (e : option error) :
  not_ID3 s →
  Tags.New newID3 s = (rest, (Some md, e)) ∧ md ≠ ∅
  ↔ e = None ∧ fmt_container s rest md.
Proof.
  intros HTAG. split.
  - intros [Hres Hmd].
    pose proof (New_outcomes newID3 s HTAG) as Hout. rewrite Hres in Hout.
    destruct e; [done|]. destruct Hout as (s0 & -> & Hw). split; [reflexivity|].
    unfold Tags.newWav in Hw.
    destruct (binary_Read_int32 s0) as [s1 [len|e1]] eqn:Hlen; [|discriminate].
    apply binary_Read_int32_stream_ok in Hlen as (l0 & l1 & l2 & l3 & -> & ->).
    destruct (Tags.expectFourCC "WAVE" s1) as [s2 [[]|e2]] eqn:HWAVE; [|discriminate].
    destruct s1 as [|w0 [|w1 [|w2 [|w3 s1]]]]; [discriminate..|].
    rewrite Tags_expectFourCC_stream in HWAVE.
    destruct (String.eqb_spec "WAVE" (string_of [w0; w1; w2; w3])) as [HW|];
      [|discriminate].
    injection HWAVE as <-.
    apply (string_of_inj (bytes "WAVE")) in HW. injection HW as <- <- <- <-.
    destruct (Tags.readSubchunks (s1, ∅)) as [[s3 md3] [[]|e3]] eqn:Hsub; [|discriminate].
    injection Hw as <- <-.
    destruct s1 as [|a [|b [|c [|d [|n0 [|n1 [|n2 [|n3 s1]]]]]]]]; [discriminate..|].
    rewrite Tags_readSubchunks_stream in Hsub. cbv zeta in Hsub.
    destruct (String.eqb_spec (string_of [a; b; c; d]) "fmt ") as [Hid|_].
    + apply (string_of_inj _ (bytes "fmt ")) in Hid. injection Hid as -> -> -> ->.
      pose proof (Tags_onData_ok _ _ _ _ _ _ _ Hsub) as (data' & Hfmt).
      apply Tags_readFormat_limited_ok in Hfmt
        as (c0 & c1 & r0 & r1 & r2 & r3 & y0 & y1 & y2 & y3 & a0 & a1 & d0 & d1 & s6
            & Hn & -> & -> & ->).
      unfold Tags.onData in Hsub.
      rewrite Tags_readFormat_limited in Hsub by done. injection Hsub as <-.
      exists l0, l1, l2, l3, n0, n1, n2, n3, c0, c1, r0, r1, r2, r3,
             y0, y1, y2, y3, a0, a1, d0, d1.
      split; [exact Hn|]. split; reflexivity.
    + exfalso. apply Hmd.
      destruct (String.eqb _ "data").
      { destruct (CopyN_Discard _ _) as [r5 [w [e5|]]]; congruence. }
      destruct (String.eqb _ "LIST").
      { apply Tags_onData_ok in Hsub as (data' & Hk).
        apply onReader_ok in Hk as [_ ->]. reflexivity. }
      destruct (String.eqb _ "INFO"); [|discriminate].
      apply Tags_onData_ok in Hsub as (data' & Hk).
      unfold Tags.readInfo, ret in Hk. congruence.
  - intros (-> & l0 & l1 & l2 & l3 & n0 & n1 & n2 & n3 & c0 & c1 & r0 & r1 & r2 & r3
            & y0 & y1 & y2 & y3 & a0 & a1 & d0 & d1 & Hn & -> & ->).
    split; [|apply with_fmt_fields_nonempty].
    exact (Tags_New_fmt newID3 l0 l1 l2 l3 n0 n1 n2 n3 "001" "000"
             c0 c1 r0 r1 r2 r3 y0 y1 y2 y3 a0 a1 d0 d1 rest Hn eq_refl).
Qed.

Lemma New_returns_fields_exactly_witness :
  not_ID3 (riff (le32 38) (chunk "fmt " 18 (fmt_payload 1 2 44100 176400 4 16 ++ le16 0)))
  ∧ Tags.New noID3
      (riff (le32 38) (chunk "fmt " 18 (fmt_payload 1 2 44100 176400 4 16 ++ le16 0)))
    = (le16 0, (Some cd_fields, None))
  ∧ cd_fields ≠ ∅.
Proof.
  assert (not_ID3
            (riff (le32 38) (chunk "fmt " 18 (fmt_payload 1 2 44100 176400 4 16 ++ le16 0))))
    as HTAG by discriminate.
  split; [exact HTAG|].
  apply (proj2 (New_returns_fields_exactly noID3 _ (le16 0) cd_fields None HTAG)).
  split; [reflexivity|].
  exists "&"%byte, "000"%byte, "000"%byte, "000"%byte,
         "018"%byte, "000"%byte, "000"%byte, "000"%byte,
         "002"%byte, "000"%byte, "D"%byte, "172"%byte, "000"%byte, "000"%byte,
         "016"%byte, "177"%byte, "002"%byte, "000"%byte,
         "004"%byte, "000"%byte, "016"%byte, "000"%byte.
  split; [vm_compute; discriminate|]. split; reflexivity.
Defined.

(** ** Numerals lose nothing *)

From Stdlib Require DecimalZ DecimalPos.

Section Numerals.

Lemma FormatInt_inj v v' : FormatInt v = FormatInt v' → v = v'.
Proof.
  unfold FormatInt. intros Heq.
  assert (∀ z, Z.to_int z ≠ Decimal.Pos Decimal.Nil
               ∧ Z.to_int z ≠ Decimal.Neg Decimal.Nil) as Hnonnil.
  { intros [|p|p]; cbn; split; try discriminate;
      intros [= Hp]; exact (DecimalPos.Unsigned.to_uint_nonnil _ Hp). }
  apply (f_equal NilZero.int_of_string) in Heq.
  rewrite !NilZero.isi in Heq by apply Hnonnil.
  injection Heq as Heq. exact (DecimalZ.to_int_inj _ _ Heq).
Qed.

Lemma to_int16_Uint16_inj b0 b1 b0' b1' :
  to_int16 (Uint16 b0 b1) = to_int16 (Uint16 b0' b1') → b0 = b0' ∧ b1 = b1'.
Proof.
  intros Heq. apply Uint16_inj.
  pose proof (Uint16_bounds b0 b1). pose proof (Uint16_bounds b0' b1').
  revert Heq. unfold to_int16.
  destruct (Z.ltb_spec (Uint16 b0 b1) (2 ^ 15));
    destruct (Z.ltb_spec (Uint16 b0' b1') (2 ^ 15)); lia.
Qed.

Lemma to_int32_Uint32_inj b0 b1 b2 b3 b0' b1' b2' b3' :
  to_int32 (Uint32 b0 b1 b2 b3) = to_int32 (Uint32 b0' b1' b2' b3') →
  b0 = b0' ∧ b1 = b1' ∧ b2 = b2' ∧ b3 = b3'.
Proof.
  intros Heq. apply Uint32_inj.
  pose proof (Uint32_bounds b0 b1 b2 b3). pose proof (Uint32_bounds b0' b1' b2' b3').
  revert Heq. unfold to_int32.
  destruct (Z.ltb_spec (Uint32 b0 b1 b2 b3) (2 ^ 31));
    destruct (Z.ltb_spec (Uint32 b0' b1' b2' b3') (2 ^ 31)); lia.
Qed.

Lemma with_fmt_fields_lookups tag c r y a d md :
  let m := with_fmt_fields tag c r y a d md in
  m !! "AudioFormat" = Some (FormatInt tag)
  ∧ m !! "NumChannels" = Some (FormatInt c)
  ∧ m !! "SampleRate" = Some (FormatInt r)
  ∧ m !! "ByteRate" = Some (FormatInt y)
  ∧ m !! "BlockAlign" = Some (FormatInt a)
  ∧ m !! "BitRate" = Some (FormatInt d).
Proof.
  unfold with_fmt_fields.
  repeat split; repeat (rewrite lookup_insert_ne by discriminate);
    apply lookup_insert_eq.
Qed.

Lemma with_fmt_fields_inj tag c r y a d tag' c' r' y' a' d' md md' :
  with_fmt_fields tag c r y a d md = with_fmt_fields tag' c' r' y' a' d' md' →
  tag = tag' ∧ c = c' ∧ r = r' ∧ y = y' ∧ a = a' ∧ d = d'.
Proof.
  intros Heq.
  destruct (with_fmt_fields_lookups tag c r y a d md) as (H1 & H2 & H3 & H4 & H5 & H6).
  destruct (with_fmt_fields_lookups tag' c' r' y' a' d' md')
    as (H1' & H2' & H3' & H4' & H5' & H6').
  rewrite Heq in H1, H2, H3, H4, H5, H6.
  repeat split; apply FormatInt_inj; congruence.
Qed.

Lemma Some_map_inj {A B} (a b : A) : (Some a, @None B) = (Some b, None) → a = b.
Proof. intros [= ->]. reflexivity. Qed.

Lemma Tags_New_fmt_tag_1 newID3 l0 l1 l2 l3 n0 n1 n2 n3
    c0 c1 r0 r1 r2 r3 y0 y1 y2 y3 a0 a1 d0 d1 (rest : list byte) :
  16 ≤ to_int32 (Uint32 n0 n1 n2 n3) →
  Tags.New newID3
    (riff [l0; l1; l2; l3]
       (bytes "fmt " ++ [n0; n1; n2; n3] ++ le16 1 ++
        [c0; c1; r0; r1; r2; r3; y0; y1; y2; y3; a0; a1; d0; d1] ++ rest))
  = (rest,
     (Some (with_fmt_fields 1 (to_int16 (Uint16 c0 c1)) (to_int32 (Uint32 r0 r1 r2 r3))
              (to_int32 (Uint32 y0 y1 y2 y3)) (to_int16 (Uint16 a0 a1))
              (to_int16 (Uint16 d0 d1)) ∅), None)).
Proof.
  intros Hn.
  exact (Tags_New_fmt newID3 l0 l1 l2 l3 n0 n1 n2 n3 "001" "000"
           c0 c1 r0 r1 r2 r3 y0 y1 y2 y3 a0 a1 d0 d1 rest Hn eq_refl).
Qed.

End Numerals.

(** X16. The numerals lose nothing: two format chunks of tag 1 make
    [New] return the same map exactly when their fourteen field bytes
    are the same, whatever the outer lengths, the declared lengths (of
    at least 16) and the bytes that follow. *)
Theorem New_maps_equal_iff_fields_equal
    (newID3 : list byte → list byte * (option strmap * option error))
    (l l' n n' p p' rest rest' : list byte) :
  length l = 4%nat → length l' = 4%nat →
  length p = 14%nat → length p' = 14%nat →
  (∃ n0 n1 n2 n3, n = [n0; n1; n2; n3] ∧ 16 ≤ to_int32 (Uint32 n0 n1 n2 n3)) →
  (∃ n0 n1 n2 n3, n' = [n0; n1; n2; n3] ∧ 16 ≤ to_int32 (Uint32 n0 n1 n2 n3)) →
  let parse l n p rest :=
    (Tags.New newID3 (riff l (bytes "fmt " ++ n ++ le16 1 ++ p ++ rest))).2 in
  (∃ md, parse l n p rest = (Some md, None))
  ∧ (parse l n p rest = parse l' n' p' rest' ↔ p = p').
Proof.
  intros Hl Hl' Hp Hp' (n0 & n1 & n2 & n3 & -> & Hn) (m0 & m1 & m2 & m3 & -> & Hm) parse.
  destruct l as [|l0 [|l1 [|l2 [|l3 [|? ?]]]]]; try discriminate.
  destruct l' as [|k0 [|k1 [|k2 [|k3 [|? ?]]]]]; try discriminate.
  destruct p as [|c0 [|c1 [|r0 [|r1 [|r2 [|r3 [|y0 [|y1 [|y2 [|y3 [|a0 [|a1 [|d0 [|d1
    [|? ?]]]]]]]]]]]]]]]; try discriminate.
  destruct p' as [|c0' [|c1' [|r0' [|r1' [|r2' [|r3' [|y0' [|y1' [|y2' [|y3' [|a0'
    [|a1' [|d0' [|d1' [|? ?]]]]]]]]]]]]]]]; try discriminate.
  subst parse. cbv beta.
  rewrite !Tags_New_fmt_tag_1 by assumption.
  cbn [snd]. split; [eauto|]. split.
  - intros Heq. apply Some_map_inj in Heq.
    apply with_fmt_fields_inj in Heq as (_ & Hc & Hr & Hy & Ha & Hd).
    apply to_int16_Uint16_inj in Hc as (-> & ->).
    apply to_int32_Uint32_inj in Hr as (-> & -> & -> & ->).
    apply to_int32_Uint32_inj in Hy as (-> & -> & -> & ->).
    apply to_int16_Uint16_inj in Ha as (-> & ->).
    apply to_int16_Uint16_inj in Hd as (-> & ->). reflexivity.
  - intros [= -> -> -> -> -> -> -> -> -> -> -> -> -> ->]. reflexivity.
Qed.

Lemma New_maps_equal_iff_fields_equal_witness :
  (Tags.New noID3
     (riff (le32 36) (bytes "fmt " ++ le32 16 ++ le16 1 ++
                      drop 2 (fmt_payload 1 2 44100 176400 4 16) ++ []))).2
  = (Tags.New noID3
       (riff (le32 99) (bytes "fmt " ++ le32 18 ++ le16 1 ++
                        drop 2 (fmt_payload 1 2 44100 176400 4 16) ++ le16 0))).2.
Proof.
  apply (proj2 (New_maps_equal_iff_fields_equal noID3 (le32 36) (le32 99)
                  (le32 16) (le32 18)
                  (drop 2 (fmt_payload 1 2 44100 176400 4 16))
                  (drop 2 (fmt_payload 1 2 44100 176400 4 16)) [] (le16 0)
                  eq_refl eq_refl eq_refl eq_refl
                  ltac:(eexists _, _, _, _; split; [reflexivity|vm_compute; discriminate])
                  ltac:(eexists _, _, _, _; split; [reflexivity|vm_compute; discriminate]))).
  reflexivity.
Defined.
